(** * PurritoBin: the paste ingestion path of [purrito.cc]

    A shallow embedding of [random_slug], [save_buffer], [read_paste] with its
    [onData] callback and the [post] handler of [purr], followed by the
    properties of the upload path.

    Conventions of the embedding:
    - [uint32_t] values are integers reduced modulo 2^32 ([wrap32]); the
      conversion to [int] made by [std::min<int>] / [std::max<int>] is
      [to_int];
    - a [char] array is a list of cells, a cell being [None] while it is
      indeterminate (fresh from [malloc] or [new]) and [Some c] once written;
    - an execution with undefined behaviour (out of bounds access, read of an
      indeterminate cell, signed overflow, use of a null pointer or stream) or
      that leaves by an exception has no result: the function returns [None];
    - what libc decides ([malloc] returning a null pointer, [fopen] returning a
      stream, how much [fprintf] writes and the status it returns) is read from
      an environment record. *)

From Stdlib Require Import ZArith Lia ZifyBool Ascii String List.
From stdpp Require Import gmap strings list fin_maps.
Import ListNotations.

Local Open Scope Z_scope.

(** ** Machine integers *)

(** [uint32_t] arithmetic. *)
Definition wrap32 (z : Z) : Z := z mod 2 ^ 32.

(** Conversion of an integer value to [int] (two's complement, 32 bits). *)
Definition to_int (z : Z) : Z := (z + 2 ^ 31) mod 2 ^ 32 - 2 ^ 31.

Definition INT_MAX : Z := 2 ^ 31 - 1.

(** ** Character arrays and C strings *)

Definition NUL : ascii := Ascii.zero.

Abbreviation cell := (option ascii).
Abbreviation region := (list (option ascii)).

(** [p[i] = c] on an array of [length r] cells. *)
Definition poke (r : region) (i : Z) (c : ascii) : option region :=
  if (0 <=? i) && (i <? Z.of_nat (length r))
  then Some (<[Z.to_nat i := Some c]> r)
  else None.

(** Writing [data] at [p + off]. Nothing is accessed when [data] is empty. *)
Definition write_at (r : region) (off : Z) (data : list ascii) : option region :=
  match data with
  | [] => Some r
  | _ =>
      if (0 <=? off) && (off + Z.of_nat (length data) <=? Z.of_nat (length r))
      then Some (take (Z.to_nat off) r ++ map Some data
                   ++ drop (Z.to_nat off + length data) r)
      else None
  end.

(** Reading the C string that starts at the beginning of a region: the
    characters before the first NUL. Running off the region or meeting an
    indeterminate cell is undefined. *)
Fixpoint cstr_read (r : region) : option (list ascii) :=
  match r with
  | [] => None
  | None :: _ => None
  | Some c :: r' =>
      if Ascii.eqb c NUL then Some []
      else option_map (cons c) (cstr_read r')
  end.

(** The characters of a list before its first NUL. *)
Fixpoint until_nul (l : list ascii) : list ascii :=
  match l with
  | [] => []
  | c :: l' => if Ascii.eqb c NUL then [] else c :: until_nul l'
  end.

(** [s.c_str()] read back as a C string: a [std::string] is always followed
    by a terminator, so the read is total. *)
Definition c_str (s : string) : string :=
  string_of_list_ascii (until_nul (list_ascii_of_string s)).

(** ** The random engine *)

(** [std::mt19937 rng(seed)] is library code. The engine is represented by the
    sequence of words it outputs and the number of words already drawn. *)
Record mt19937 : Type := MkEngine {
  outputs : nat -> Z;
  drawn : nat
}.

(** [rng()]: a value of [uint_fast32_t] below 2^32. *)
Definition rng_call (g : mt19937) : Z * mt19937 :=
  (wrap32 (outputs g (drawn g)),
   {| outputs := outputs g; drawn := S (drawn g) |}).

(** ** random_slug *)

Definition alphanum : string := "0123456789abcdefghijklmnopqrstuvwxyz".

(** [for (int i = 0; i < slug_size; i++) rslug[i] = alphanum[rng() % len];]
    with [todo] iterations left. *)
Fixpoint sample_loop (todo : nat) (i : Z) (rslug : region) (g : mt19937)
  : option (region * mt19937) :=
  match todo with
  | O => Some (rslug, g)
  | S todo' =>
      let len := Z.of_nat (String.length alphanum) in
      let '(x, g') := rng_call g in
      match String.get (Z.to_nat (x mod len)) alphanum with
      | None => None
      | Some c =>
          match poke rslug i c with
          | None => None
          | Some rslug' => sample_loop todo' (i + 1) rslug' g'
          end
      end
  end.

Definition random_slug (slug_size : Z) (g : mt19937) : option (string * mt19937) :=
  (* slug_size + 1 is computed in int *)
  if slug_size + 1 <=? INT_MAX then
    (* new char[n] with n negative throws *)
    if 0 <=? slug_size + 1 then
      let rslug := repeat (None : cell) (Z.to_nat (slug_size + 1)) in
      match sample_loop (Z.to_nat slug_size) 0 rslug g with
      | None => None
      | Some (rslug1, g') =>
          match poke rslug1 slug_size NUL with
          | None => None
          | Some rslug2 =>
              match cstr_read rslug2 with
              | None => None
              | Some new_slug => Some (string_of_list_ascii new_slug, g')
              end
          end
      end
    else None
  else None.

(** A deterministic engine for examples: the words 0, 7, 14, ... *)
Definition demo_engine : mt19937 := {| outputs := fun k => 7 * Z.of_nat k; drawn := 0 |}.

(** ** Settings and environment *)

(** Modelled from the spec: [purrito_settings] is declared in [purrito.h],
    which is not among the sources. The fields are the configuration surface
    the spec lists; [max_paste_size] is a byte count (it flows into the
    unsigned [max_chars]) and [slug_size] is the value received by the
    [const int &] parameter of [random_slug]. *)
Record purrito_settings : Type := MkSettings {
  domain : string;
  storage_directory : string;
  bind_port : Z;
  max_paste_size : N;
  slug_size : Z
}.

(** What the C library does with one output file: whether [fopen] returns a
    stream, how many characters of the text given to [fprintf] reach the
    file, and the value [fprintf] returns. *)
Record stream_io : Type := MkStream {
  opened : bool;
  written : nat;
  status : Z
}.

Record libc : Type := MkLibc {
  malloc_null : Z -> bool;          (* malloc(n) returns a null pointer *)
  fopen_w : string -> stream_io     (* fopen(path, "w") and the writes after it *)
}.

Inductive log_entry : Type :=
| WarnRequest (perr : Z)     (* "could not process the request" *)
| WarnWrite (write_err : Z)  (* "error while writing to file" *)
| PrintAborted.              (* "request was prematurely aborted" *)

(** The process state shared by all requests. *)
Record world : Type := MkWorld {
  rng : mt19937;
  files : gmap string string;
  log : list log_entry
}.

(** ** save_buffer *)

Definition ends_with_slash (p : string) : bool :=
  match rev (list_ascii_of_string p) with
  | c :: _ => Ascii.eqb c "/"
  | [] => false
  end.

(** [ofile /= slug] of [std::filesystem::path] on a POSIX system. *)
Definition path_append (p q : string) : string :=
  match q with
  | String "/" _ => q
  | _ =>
      if (String.length p =? 0)%nat then q
      else if ends_with_slash p then p +:+ q
      else p +:+ "/" +:+ q
  end.

Definition sizeof_char : Z := 1.

Definition save_buffer (buffer : region) (settings : purrito_settings)
    (env : libc) (w : world) : option (string * world) :=
  match random_slug (slug_size settings) (rng w) with
  | None => None
  | Some (slug, g') =>
      let ofile := path_append (storage_directory settings) slug in
      let output_file := fopen_w env (c_str ofile) in
      if opened output_file then
        (* fprintf(output_file, "%s", buffer) *)
        match cstr_read buffer with
        | None => None
        | Some text =>
            let write_err := status output_file in
            let on_disk := string_of_list_ascii (take (written output_file) text) in
            let log' := if write_err <? 0
                        then log w ++ [WarnWrite write_err] else log w in
            Some (domain settings +:+ slug +:+ String "010" EmptyString,
                  {| rng := g';
                     files := <[c_str ofile := on_disk]> (files w);
                     log := log' |})
        end
      else None
  end.

(** ** read_paste and its onData callback *)

(** The heap objects captured by the callback. A null [buffer] is [None]. *)
Record upload : Type := MkUpload {
  buffer : option region;
  read_count : Z
}.

Definition max_chars (settings : purrito_settings) : Z :=
  wrap32 (Z.of_N (max_paste_size settings) / sizeof_char).

(** [std::max<int>(0, std::min<int>(max_chars - *read_count, chunk.size()))]
    assigned to a [uint32_t]. *)
Definition copy_size (mc rc : Z) (chunk : string) : Z :=
  wrap32 (Z.max 0 (Z.min (to_int (wrap32 (mc - rc)))
                         (to_int (Z.of_nat (String.length chunk))))).

(** The clamp as the spec writes it, [clamp(x, lo, hi)], on unbounded
    integers; [copy_size] above is what the source computes. *)
Definition spec_clamp (x lo hi : Z) : Z := Z.max lo (Z.min x hi).

(** [chunk.copy(dest + off, count)]: copies [min(count, chunk.size())]
    characters. *)
Definition string_view_copy (chunk : string) (dest : option region)
    (off count : Z) : option (option region) :=
  let rcount := Z.min count (Z.of_nat (String.length chunk)) in
  let data := take (Z.to_nat rcount) (list_ascii_of_string chunk) in
  match dest with
  | Some r => option_map Some (write_at r off data)
  | None => match data with [] => Some None | _ => None end
  end.

(** One call of the [onData] lambda. The result carries the bodies passed to
    [res->end] by this call. *)
Definition on_data (settings : purrito_settings) (env : libc)
    (u : upload) (w : world) (chunk : string) (is_last : bool)
  : option (upload * world * list string) :=
  let mc := max_chars settings in
  let cs := copy_size mc (read_count u) chunk in
  match string_view_copy chunk (buffer u) (read_count u) cs with
  | None => None
  | Some buffer1 =>
      if is_last then
        let rc := wrap32 (cs + read_count u) in
        if is_last || (rc =? mc) then
          match buffer1 with
          | None => None
          | Some r1 =>
              match poke r1 rc NUL with
              | None => None
              | Some r2 =>
                  match save_buffer r2 settings env w with
                  | None => None
                  | Some (paste_url, w') =>
                      Some ({| buffer := Some r2; read_count := rc |}, w',
                            [c_str paste_url])
                  end
              end
          end
        else Some ({| buffer := buffer1; read_count := rc |}, w, [])
      else Some ({| buffer := buffer1; read_count := read_count u |}, w, [])
  end.

(** The response object of one request: the handlers attached to it and the
    bodies it was ended with. *)
Record connection : Type := MkConn {
  data_handler : option upload;
  abort_handler : bool;
  sent : list string
}.

Definition fresh_connection : connection :=
  {| data_handler := None; abort_handler := false; sent := [] |}.

Definition read_paste (settings : purrito_settings) (env : libc)
    (res : connection) : Z * connection :=
  let mc := max_chars settings in
  let size := wrap32 (mc + 1) in
  let buffer := if malloc_null env size then None
                else Some (repeat (None : cell) (Z.to_nat size)) in
  let u := {| buffer := buffer; read_count := 0 |} in
  (0, {| data_handler := Some u;
         abort_handler := abort_handler res;
         sent := sent res |}).

(** The [post] handler of [purr]. *)
Definition purr_post (settings : purrito_settings) (env : libc)
    (res : connection) (w : world) : connection * world :=
  let '(perr, res1) := read_paste settings env res in
  if negb (perr =? 0) then
    (res1, {| rng := rng w; files := files w;
              log := log w ++ [WarnRequest perr] |})
  else
    ({| data_handler := data_handler res1;
        abort_handler := true;
        sent := sent res1 |}, w).

(** ** Delivery of the request body by the server runtime *)

Inductive event : Type :=
| Data (chunk : string) (is_last : bool)
| Aborted.

(** The runtime calls the attached handler. *)
Definition deliver (settings : purrito_settings) (env : libc) (ev : event)
    (res : connection) (w : world) : option (connection * world) :=
  match ev with
  | Data chunk is_last =>
      match data_handler res with
      | None => Some (res, w)
      | Some u =>
          match on_data settings env u w chunk is_last with
          | None => None
          | Some (u', w', bodies) =>
              Some ({| data_handler := Some u';
                       abort_handler := abort_handler res;
                       sent := sent res ++ bodies |}, w')
          end
      end
  | Aborted =>
      if abort_handler res then
        Some (res, {| rng := rng w; files := files w;
                      log := log w ++ [PrintAborted] |})
      else Some (res, w)
  end.

(** Events are delivered in order; nothing is delivered after an abort. *)
Fixpoint run (settings : purrito_settings) (env : libc) (evs : list event)
    (res : connection) (w : world) : option (connection * world) :=
  match evs with
  | [] => Some (res, w)
  | Aborted :: _ => deliver settings env Aborted res w
  | ev :: evs' =>
      match deliver settings env ev res w with
      | None => None
      | Some (res', w') => run settings env evs' res' w'
      end
  end.

(** A whole request: the [post] handler, then the body. *)
Definition request (settings : purrito_settings) (env : libc)
    (evs : list event) (w : world) : option (connection * world) :=
  let '(res, w0) := purr_post settings env fresh_connection w in
  run settings env evs res w0.

(** ** Concrete settings and environments *)

(** A C library in which every call succeeds. *)
Definition good_libc : libc :=
  {| malloc_null := fun _ => false;
     fopen_w := fun _ => {| opened := true; written := 1000; status := 0 |} |}.

Definition demo_world : world :=
  {| rng := demo_engine; files := ∅; log := [] |}.

Definition demo_settings (cap : N) : purrito_settings :=
  {| domain := "http://p.example/"; storage_directory := "/var/pastes";
     bind_port := 42069; max_paste_size := cap; slug_size := 5 |}.

(** A C library whose [malloc] always returns a null pointer. *)
Definition null_libc : libc :=
  {| malloc_null := fun _ => true; fopen_w := fopen_w good_libc |}.

(** A C library whose [fopen] never returns a stream. *)
Definition closed_libc : libc :=
  {| malloc_null := fun _ => false;
     fopen_w := fun _ => {| opened := false; written := 0; status := -1 |} |}.

(** A C library whose [fprintf] writes nothing and returns -1. *)
Definition failing_libc : libc :=
  {| malloc_null := fun _ => false;
     fopen_w := fun _ => {| opened := true; written := 0; status := -1 |} |}.

(** The states of one request: after the [post] handler, and after each
    event the runtime delivers. *)
Inductive reachable (settings : purrito_settings) (env : libc) (w0 : world)
  : connection -> world -> Prop :=
| reach_post :
    reachable settings env w0
      (fst (purr_post settings env fresh_connection w0))
      (snd (purr_post settings env fresh_connection w0))
| reach_deliver (ev : event) (res res' : connection) (w w' : world) :
    reachable settings env w0 res w ->
    deliver settings env ev res w = Some (res', w') ->
    reachable settings env w0 res' w'.

(** ** Predicates used in the statements *)

(** The character class [0-9a-z]. *)
Definition digit_or_lower (c : ascii) : bool :=
  let k := nat_of_ascii c in
  ((48 <=? k)%nat && (k <=? 57)%nat) || ((97 <=? k)%nat && (k <=? 122)%nat).

(** The file named by a slug. *)
Definition paste_path (settings : purrito_settings) (slug : string) : string :=
  c_str (path_append (storage_directory settings) slug).

Definition newline : string := String "010" EmptyString.

(** The counter of a session stays within the capacity. *)
Definition upload_ok (settings : purrito_settings) (u : upload) : Prop :=
  0 <= read_count u <= max_chars settings.

(** The buffer of a session is the region obtained from [malloc]. When
    [max_chars + 1] wraps to 0 that region is empty and nothing was counted. *)
Definition buffer_ok (settings : purrito_settings) (u : upload) : Prop :=
  exists r, buffer u = Some r
    /\ Z.of_nat (length r) = wrap32 (max_chars settings + 1)
    /\ (max_chars settings = 2 ^ 32 - 1 -> read_count u = 0).

Definition is_final (ev : event) : bool :=
  match ev with
  | Data _ true => true
  | _ => false
  end.

(** The events the runtime delivers to the data handler: those before the
    first abort. *)
Fixpoint before_abort (evs : list event) : list event :=
  match evs with
  | [] => []
  | Aborted :: _ => []
  | ev :: evs' => ev :: before_abort evs'
  end.

Definition no_final (evs : list event) : bool :=
  forallb (fun ev => negb (is_final ev)) (before_abort evs).

Definition not_last (chunk : string) : event := Data chunk false.

Definition session_ok (settings : purrito_settings) (res : connection) : Prop :=
  exists u, data_handler res = Some u
    /\ upload_ok settings u /\ buffer_ok settings u.

(** ** Notions used by the further properties *)

(** The index [rng() % len] computed from one word of the engine, and the
    character [alphanum[rng() % len]] stored for it. *)
Definition alphanum_index (word : Z) : Z :=
  wrap32 word mod Z.of_nat (String.length alphanum).

Definition alphanum_at (word : Z) : ascii :=
  match String.get (Z.to_nat (alphanum_index word)) alphanum with
  | Some c => c
  | None => NUL
  end.

(** The engine after [n] calls. *)
Definition advance (g : mt19937) (n : nat) : mt19937 :=
  {| outputs := outputs g; drawn := (drawn g + n)%nat |}.

(** The characters stored by [n] iterations of the sampling loop. *)
Definition slug_chars (g : mt19937) (n : nat) : list ascii :=
  map (fun i => alphanum_at (outputs g (drawn g + i)%nat)) (seq 0 n).

(** An engine that repeats the word 10: every slug is made of the letter a. *)
Definition stuck_engine : mt19937 := {| outputs := fun _ => 10; drawn := 0 |}.

(** The separator [operator/=] puts between the directory and a relative
    name. *)
Definition separator (dir : string) : string :=
  if (String.length dir =? 0)%nat || ends_with_slash dir then "" else "/".

(** The cells of a region before position [k] have all been written. *)
Definition initialised (r : region) (k : nat) : Prop :=
  forall i, (i < k)%nat -> exists c, r !! i = Some (Some c).

(** The final fragments among the events delivered. *)
Definition finals (evs : list event) : nat :=
  length (List.filter is_final (before_abort evs)).

(** What holds of the heap objects of a session with an allocated buffer:
    the buffer has [max_chars + 1] cells, the counter is within the capacity
    and every cell below the counter has been written. *)
Definition session_inv (settings : purrito_settings) (u : upload) : Prop :=
  exists r, buffer u = Some r
    /\ Z.of_nat (length r) = max_chars settings + 1
    /\ 0 <= read_count u <= max_chars settings
    /\ initialised r (Z.to_nat (read_count u)).

(** * Properties *)

(** ** Examples *)

Example random_slug_demo :
  option_map fst (random_slug 5 demo_engine) = Some "07els"%string.
Proof. vm_compute. reflexivity. Qed.

(** Scenario 2 of the spec: one final fragment below the cap. *)
Example single_fragment :
  match request (demo_settings 100) good_libc [Data "abc" true] demo_world with
  | Some (res, w) =>
      files w !! "/var/pastes/07els"%string = Some "abc"%string
      /\ sent res = ["http://p.example/07els" +:+ String "010" EmptyString]
  | None => False
  end.
Proof. vm_compute. split; reflexivity. Qed.

(** ** Machine integers *)

Ltac pow2 :=
  change (2 ^ 32) with 4294967296 in *;
  change (2 ^ 31) with 2147483648 in *.

Lemma wrap32_range z : 0 <= wrap32 z < 2 ^ 32.
Proof. unfold wrap32. apply Z.mod_pos_bound. reflexivity. Qed.

Lemma wrap32_small z : 0 <= z < 2 ^ 32 -> wrap32 z = z.
Proof. intros H. unfold wrap32. apply Z.mod_small, H. Qed.

Lemma to_int_small z : - 2 ^ 31 <= z < 2 ^ 31 -> to_int z = z.
Proof. unfold to_int. pow2. intros H. rewrite Z.mod_small; lia. Qed.

Lemma to_int_range z : - 2 ^ 31 <= to_int z < 2 ^ 31.
Proof.
  unfold to_int. pow2.
  pose proof (Z.mod_pos_bound (z + 2147483648) 4294967296 eq_refl). lia.
Qed.

(** A value of [uint32_t] or [size_t] converted to [int] never grows. *)
Lemma to_int_le z : 0 <= z -> to_int z <= z.
Proof.
  unfold to_int. pow2. intros H.
  pose proof (Z.mod_le (z + 2147483648) 4294967296). lia.
Qed.

Lemma to_int_high z : 2 ^ 31 <= z < 2 ^ 32 -> to_int z = z - 2 ^ 32.
Proof.
  unfold to_int. pow2. intros H.
  replace (z + 2147483648) with ((z - 2147483648) + 1 * 4294967296) by lia.
  rewrite Z.mod_add by discriminate.
  rewrite Z.mod_small; lia.
Qed.

(** The number of characters copied stays inside the chunk and inside the
    room left in the buffer. *)
Lemma copy_size_bounds mc rc chunk :
  0 <= rc <= mc -> mc < 2 ^ 32 ->
  0 <= copy_size mc rc chunk
  /\ copy_size mc rc chunk <= mc - rc
  /\ copy_size mc rc chunk <= Z.of_nat (String.length chunk).
Proof.
  intros Hrc Hmc. unfold copy_size.
  rewrite (wrap32_small (mc - rc)) by lia.
  pose proof (to_int_le (Z.of_nat (String.length chunk)) (Zle_0_nat _)) as Hs.
  pose proof (to_int_range (Z.of_nat (String.length chunk))) as Hsr.
  pose proof (to_int_range (mc - rc)) as Hdr.
  assert (Hd : to_int (mc - rc) <= mc - rc) by (apply to_int_le; lia).
  rewrite wrap32_small; pow2; lia.
Qed.

(** ** Character arrays *)

Lemma poke_at (l1 : region) (x : cell) (l2 : region) (i : Z) (c : ascii) :
  i = Z.of_nat (length l1) ->
  poke (l1 ++ x :: l2) i c = Some (l1 ++ Some c :: l2).
Proof.
  intros ->. unfold poke. rewrite length_app. cbn [length].
  destruct (0 <=? Z.of_nat (length l1)) eqn:E1; [| lia].
  destruct (Z.of_nat (length l1) <? Z.of_nat (length l1 + S (length l2))) eqn:E2; [| lia].
  cbn [andb]. f_equal. rewrite Nat2Z.id.
  rewrite insert_app_r_alt by lia.
  rewrite Nat.sub_diag. reflexivity.
Qed.

Lemma poke_lookup r i c r' :
  poke r i c = Some r' -> r' !! Z.to_nat i = Some (Some c).
Proof.
  unfold poke. destruct (_ && _) eqn:E; [| discriminate].
  intros [= <-]. apply list_lookup_insert_eq.
  apply andb_prop in E as [E1 E2]. lia.
Qed.

Lemma write_at_length r off data r' :
  write_at r off data = Some r' -> length r' = length r.
Proof.
  unfold write_at. destruct data as [| d data]; [congruence |].
  remember (d :: data) as dd eqn:Hdd.
  destruct (_ && _) eqn:E; [| discriminate].
  intros [= <-].
  rewrite !length_app, length_take, length_map, length_drop. lia.
Qed.

Lemma write_at_defined r off data :
  0 <= off -> off + Z.of_nat (length data) <= Z.of_nat (length r) ->
  exists r', write_at r off data = Some r'.
Proof.
  intros H1 H2. unfold write_at. destruct data as [| d data]; [eauto |].
  destruct (_ && _) eqn:E; [eauto | lia].
Qed.

Lemma cstr_read_terminated (l : list ascii) (rest : region) :
  cstr_read (map Some l ++ Some NUL :: rest) = Some (until_nul l).
Proof.
  induction l as [| c l IH]; cbn [map app cstr_read until_nul].
  - reflexivity.
  - destruct (Ascii.eqb c NUL); [reflexivity |]. rewrite IH. reflexivity.
Qed.

Lemma until_nul_id (l : list ascii) :
  Forall (fun c => c <> NUL) l -> until_nul l = l.
Proof.
  induction 1 as [| c l Hc _ IH]; cbn [until_nul]; [reflexivity |].
  destruct (Ascii.eqb_spec c NUL); [contradiction | congruence].
Qed.

Lemma until_nul_shorter (l : list ascii) :
  (length (until_nul l) <= length l)%nat.
Proof.
  induction l as [| c l IH]; cbn [until_nul length]; [lia |].
  destruct (Ascii.eqb c NUL); cbn [length]; lia.
Qed.

Lemma length_string_of_list_ascii (l : list ascii) :
  String.length (string_of_list_ascii l) = length l.
Proof. induction l; cbn; congruence. Qed.

Lemma length_list_ascii_of_string (s : string) :
  length (list_ascii_of_string s) = String.length s.
Proof. induction s; cbn; congruence. Qed.

(** ** random_slug *)

Lemma digit_or_lower_not_nul c : digit_or_lower c = true -> c <> NUL.
Proof. intros H ->. discriminate H. Qed.

Lemma alphanum_get (k : nat) :
  (k < 36)%nat ->
  exists c, String.get k alphanum = Some c /\ digit_or_lower c = true.
Proof.
  intros Hk.
  assert (Hall : forallb (fun j => match String.get j alphanum with
                                   | Some c => digit_or_lower c
                                   | None => false
                                   end) (seq 0 36) = true)
    by (vm_compute; reflexivity).
  rewrite forallb_forall in Hall.
  specialize (Hall k). rewrite in_seq in Hall.
  destruct (String.get k alphanum) as [c |].
  - exists c. split; [reflexivity | apply Hall; lia].
  - discriminate Hall. lia.
Qed.

Lemma sample_loop_spec (todo : nat) :
  forall (pre : list ascii) (k : nat) (g : mt19937),
  exists chars g',
    sample_loop todo (Z.of_nat (length pre))
      (map Some pre ++ repeat None (todo + k)) g
    = Some (map Some (pre ++ chars) ++ repeat None k, g')
    /\ length chars = todo
    /\ Forall (fun c => digit_or_lower c = true) chars
    /\ drawn g' = (drawn g + todo)%nat.
Proof.
  induction todo as [| todo IH]; intros pre k g.
  - exists [], g. cbn [sample_loop plus]. rewrite app_nil_r.
    repeat split; [constructor | lia].
  - cbn [sample_loop]. unfold rng_call.
    set (g1 := {| outputs := outputs g; drawn := S (drawn g) |}).
    set (x := wrap32 (outputs g (drawn g))).
    assert (Hk : (Z.to_nat (x mod Z.of_nat (String.length alphanum)) < 36)%nat).
    { change (Z.of_nat (String.length alphanum)) with 36.
      pose proof (Z.mod_pos_bound x 36 eq_refl). lia. }
    destruct (alphanum_get _ Hk) as (c & Hget & Hc). rewrite Hget.
    cbn [plus repeat]. rewrite poke_at by (rewrite length_map; reflexivity).
    destruct (IH (pre ++ [c]) k g1) as (chars & g' & Hrun & Hlen & Hall & Hdr).
    rewrite length_app, Nat2Z.inj_add in Hrun. cbn [length] in Hrun.
    change (Z.of_nat 1) with 1 in Hrun.
    rewrite map_app in Hrun. cbn [map] in Hrun. rewrite <- app_assoc in Hrun.
    cbn [app] in Hrun.
    exists (c :: chars), g'. rewrite Hrun.
    rewrite <- app_assoc. cbn [app length].
    repeat split; [congruence | constructor; assumption |].
    rewrite Hdr. subst g1. cbn [drawn]. lia.
Qed.

(** Slug shape for every length whose successor (the size of [rslug]) is an
    [int]: the call returns, the slug has [n] characters, each in [0-9a-z],
    and [n] words were drawn from the engine. *)
Lemma random_slug_ok (n : Z) (g : mt19937) :
  0 <= n < INT_MAX ->
  exists slug g',
    random_slug n g = Some (slug, g')
    /\ Z.of_nat (String.length slug) = n
    /\ Forall (fun c => digit_or_lower c = true) (list_ascii_of_string slug)
    /\ drawn g' = (drawn g + Z.to_nat n)%nat.
Proof.
  intros Hn. unfold random_slug.
  destruct (n + 1 <=? INT_MAX) eqn:E1; [| lia].
  destruct (0 <=? n + 1) eqn:E2; [| lia].
  replace (Z.to_nat (n + 1)) with (Z.to_nat n + 1)%nat by lia.
  destruct (sample_loop_spec (Z.to_nat n) [] 1%nat g)
    as (chars & g' & Hrun & Hlen & Hall & Hdr).
  cbn [length map app] in Hrun. change (Z.of_nat 0) with 0 in Hrun.
  rewrite Hrun. cbn [repeat app].
  rewrite poke_at by (rewrite length_map; lia).
  rewrite cstr_read_terminated.
  rewrite until_nul_id
    by (eapply Forall_impl; [exact Hall | apply digit_or_lower_not_nul]).
  exists (string_of_list_ascii chars), g'.
  rewrite length_string_of_list_ascii, list_ascii_of_string_of_list_ascii.
  repeat split; [lia | assumption | assumption].
Qed.

(** ** save_buffer *)

(** What one call of [save_buffer] does, for a terminated buffer holding
    [text] and a slug size whose successor is an [int]. *)
Lemma save_buffer_ok (settings : purrito_settings) (env : libc) (w : world)
    (buffer : region) (text : list ascii) :
  0 <= slug_size settings < INT_MAX ->
  cstr_read buffer = Some text ->
  exists slug g',
    random_slug (slug_size settings) (rng w) = Some (slug, g')
    /\ Z.of_nat (String.length slug) = slug_size settings
    /\ Forall (fun c => digit_or_lower c = true) (list_ascii_of_string slug)
    /\ let io := fopen_w env (paste_path settings slug) in
       save_buffer buffer settings env w =
         if opened io then
           Some (domain settings +:+ slug +:+ newline,
                 {| rng := g';
                    files := <[paste_path settings slug :=
                                 string_of_list_ascii (take (written io) text)]>
                               (files w);
                    log := if status io <? 0
                           then log w ++ [WarnWrite (status io)] else log w |})
         else None.
Proof.
  intros Hn Htext.
  destruct (random_slug_ok (slug_size settings) (rng w) Hn)
    as (slug & g' & Hslug & Hlen & Hall & _).
  exists slug, g'. repeat split; try assumption.
  unfold save_buffer, paste_path. rewrite Hslug.
  destruct (opened _); [| reflexivity].
  rewrite Htext. reflexivity.
Qed.

(** ** The onData callback *)

Lemma max_chars_range (settings : purrito_settings) :
  0 <= max_chars settings < 2 ^ 32.
Proof. apply wrap32_range. Qed.

Lemma max_chars_le (settings : purrito_settings) :
  max_chars settings <= Z.of_N (max_paste_size settings).
Proof.
  unfold max_chars, wrap32, sizeof_char. rewrite Z.div_1_r.
  apply Z.mod_le; [lia | reflexivity].
Qed.

Lemma on_data_not_last settings env u w chunk u' w' bodies :
  on_data settings env u w chunk false = Some (u', w', bodies) ->
  w' = w /\ bodies = [] /\ read_count u' = read_count u.
Proof.
  unfold on_data. destruct (string_view_copy _ _ _ _); [| discriminate].
  intros [= <- <- <-]. repeat split.
Qed.

Lemma on_data_last settings env u w chunk u' w' bodies :
  on_data settings env u w chunk true = Some (u', w', bodies) ->
  exists r paste_url,
    buffer u' = Some r
    /\ r !! Z.to_nat (read_count u') = Some (Some NUL)
    /\ read_count u' =
         wrap32 (copy_size (max_chars settings) (read_count u) chunk + read_count u)
    /\ save_buffer r settings env w = Some (paste_url, w')
    /\ bodies = [c_str paste_url].
Proof.
  unfold on_data. destruct (string_view_copy _ _ _ _) as [[r1 |] |];
    try discriminate.
  cbn [orb]. destruct (poke r1 _ NUL) as [r2 |] eqn:Hpoke; [| discriminate].
  destruct (save_buffer r2 settings env w) as [[paste_url w2] |] eqn:Hsave;
    [| discriminate].
  intros [= <- <- <-]. exists r2, paste_url. cbn [buffer read_count].
  repeat split; try assumption. eapply poke_lookup, Hpoke.
Qed.

(** The counter never passes [max_chars]. *)
Lemma on_data_read_count settings env u w chunk is_last u' w' bodies :
  0 <= read_count u <= max_chars settings ->
  on_data settings env u w chunk is_last = Some (u', w', bodies) ->
  0 <= read_count u' <= max_chars settings.
Proof.
  intros Hrc Hstep. destruct is_last.
  - apply on_data_last in Hstep as (r & url & _ & _ & -> & _).
    pose proof (max_chars_range settings) as Hmc.
    destruct (copy_size_bounds (max_chars settings) (read_count u) chunk Hrc)
      as (H0 & Hroom & _); [lia |].
    rewrite wrap32_small; lia.
  - apply on_data_not_last in Hstep as (_ & _ & ->). exact Hrc.
Qed.

(** ** Sessions *)

Lemma copy_size_room settings u chunk :
  upload_ok settings u ->
  (max_chars settings = 2 ^ 32 - 1 -> read_count u = 0) ->
  0 <= copy_size (max_chars settings) (read_count u) chunk
  /\ read_count u + copy_size (max_chars settings) (read_count u) chunk
     <= wrap32 (max_chars settings + 1).
Proof.
  intros Hrc Htop. pose proof (max_chars_range settings) as Hmc.
  destruct (copy_size_bounds (max_chars settings) (read_count u) chunk Hrc)
    as (H0 & Hroom & _); [lia |].
  split; [exact H0 |].
  destruct (Z.eq_dec (max_chars settings) (2 ^ 32 - 1)) as [Etop | Ntop].
  - rewrite (Htop Etop) in *. rewrite Etop in *.
    unfold copy_size in *. rewrite (wrap32_small (2 ^ 32 - 1 - 0)) in * by (pow2; lia).
    rewrite (to_int_high (2 ^ 32 - 1 - 0)) in * by (pow2; lia).
    pose proof (to_int_range (Z.of_nat (String.length chunk))) as Hs.
    replace (Z.max 0 _) with 0 by (pow2; lia).
    vm_compute. discriminate.
  - rewrite wrap32_small by (pow2; lia). lia.
Qed.

(** A fragment that is not the last one is always accepted by a session
    whose buffer was allocated; only the buffer changes. *)
Lemma on_data_not_last_defined settings env u w chunk :
  upload_ok settings u -> buffer_ok settings u ->
  exists u', on_data settings env u w chunk false = Some (u', w, [])
    /\ upload_ok settings u' /\ buffer_ok settings u'.
Proof.
  intros Hrc (r & Hbuf & Hlen & Htop).
  destruct (copy_size_room settings u chunk Hrc Htop) as (H0 & Hroom).
  unfold on_data, string_view_copy. rewrite Hbuf.
  set (data := take _ (list_ascii_of_string chunk)).
  assert (Hdata : Z.of_nat (length data)
                  <= copy_size (max_chars settings) (read_count u) chunk).
  { subst data. rewrite length_take. lia. }
  destruct (write_at_defined r (read_count u) data) as (r' & Hw);
    [apply Hrc | lia |].
  rewrite Hw. cbn [option_map]. eexists. split; [reflexivity |].
  split; [exact Hrc |].
  exists r'. cbn [buffer read_count]. split; [reflexivity |].
  split; [| exact Htop]. rewrite (write_at_length _ _ _ _ Hw). exact Hlen.
Qed.

Lemma deliver_not_final settings env ev res w res' w' :
  is_final ev = false ->
  deliver settings env ev res w = Some (res', w') ->
  files w' = files w /\ rng w' = rng w /\ sent res' = sent res.
Proof.
  intros Hev. destruct ev as [chunk [|] |]; [discriminate | |]; cbn [deliver].
  - destruct (data_handler res) as [u |]; [| intros [= <- <-]; auto].
    destruct (on_data settings env u w chunk false) as [[[u' w1] bodies] |] eqn:Hstep;
      [| discriminate].
    apply on_data_not_last in Hstep as (-> & -> & _).
    intros [= <- <-]. cbn [sent]. rewrite app_nil_r. auto.
  - destruct (abort_handler res); intros [= <- <-]; auto.
Qed.

Lemma run_no_final settings env evs :
  no_final evs = true ->
  forall res w res' w',
    run settings env evs res w = Some (res', w') ->
    files w' = files w /\ rng w' = rng w /\ sent res' = sent res.
Proof.
  unfold no_final.
  induction evs as [| ev evs IH]; intros Hnf res w res' w' Hrun.
  - cbn in Hrun. injection Hrun as <- <-. auto.
  - destruct ev as [chunk is_last |].
    + cbn [before_abort forallb] in Hnf. apply andb_prop in Hnf as [Hev Hnf].
      apply negb_true_iff in Hev. cbn [run] in Hrun.
      destruct (deliver settings env (Data chunk is_last) res w)
        as [[res1 w1] |] eqn:Hd; [| discriminate].
      apply (deliver_not_final _ _ _ _ _ _ _ Hev) in Hd as (Hf & Hg & Hs).
      destruct (IH Hnf _ _ _ _ Hrun) as (Hf' & Hg' & Hs').
      repeat split; congruence.
    + cbn [run] in Hrun.
      apply (deliver_not_final _ _ Aborted) in Hrun; [exact Hrun | reflexivity].
Qed.

Lemma run_no_final_defined settings env evs :
  no_final evs = true ->
  forall res w, session_ok settings res ->
    exists res' w', run settings env evs res w = Some (res', w').
Proof.
  unfold no_final.
  induction evs as [| ev evs IH]; intros Hnf res w Hok.
  - cbn. eauto.
  - destruct ev as [chunk is_last |].
    + cbn [before_abort forallb] in Hnf. apply andb_prop in Hnf as [Hev Hnf].
      apply negb_true_iff in Hev. destruct is_last; [discriminate |].
      destruct Hok as (u & Hu & Hrc & Hbuf).
      destruct (on_data_not_last_defined settings env u w chunk Hrc Hbuf)
        as (u' & Hstep & Hrc' & Hbuf').
      cbn [run deliver]. rewrite Hu, Hstep.
      apply IH; [exact Hnf |]. exists u'. cbn [data_handler]. auto.
    + cbn [run deliver]. destruct (abort_handler res); eauto.
Qed.

Lemma purr_post_eq settings env res w :
  purr_post settings env res w =
    ({| data_handler := Some {| buffer := if malloc_null env (wrap32 (max_chars settings + 1))
                                          then None
                                          else Some (repeat None
                                                 (Z.to_nat (wrap32 (max_chars settings + 1))));
                                read_count := 0 |};
        abort_handler := true;
        sent := sent res |}, w).
Proof. reflexivity. Qed.

Lemma purr_post_session_ok settings env w :
  malloc_null env (wrap32 (max_chars settings + 1)) = false ->
  session_ok settings (fst (purr_post settings env fresh_connection w)).
Proof.
  intros Hm. rewrite purr_post_eq, Hm. cbn [fst].
  eexists. cbn [data_handler]. split; [reflexivity |].
  pose proof (max_chars_range settings) as Hmc.
  pose proof (wrap32_range (max_chars settings + 1)) as Hsz.
  split.
  - unfold upload_ok. cbn [read_count]. lia.
  - eexists. cbn [buffer read_count]. split; [reflexivity |].
    rewrite repeat_length. split; [lia | reflexivity].
Qed.

(** ** The callback, step by step *)

Lemma write_at_eq (r : region) (off : Z) (data : list ascii) :
  0 <= off -> off + Z.of_nat (length data) <= Z.of_nat (length r) ->
  write_at r off data =
    Some (take (Z.to_nat off) r ++ map Some data
            ++ drop (Z.to_nat off + length data) r).
Proof.
  intros H0 Hfit. unfold write_at. destruct data as [| d data].
  - cbn [map app length]. rewrite Nat.add_0_r, take_drop. reflexivity.
  - destruct (_ && _) eqn:E; [reflexivity | lia].
Qed.

Lemma copy_size_clamp mc rc chunk :
  0 <= mc - rc < 2 ^ 31 ->
  Z.of_nat (String.length chunk) < 2 ^ 31 ->
  copy_size mc rc chunk = spec_clamp (mc - rc) 0 (Z.of_nat (String.length chunk)).
Proof.
  intros Hd Hs. unfold copy_size, spec_clamp.
  rewrite (wrap32_small (mc - rc)) by (pow2; lia).
  rewrite !to_int_small by (pow2; lia).
  apply wrap32_small. pow2. lia.
Qed.

(** One call of the callback on a session in its invariant, in terms of the
    [copy_size] the source computes. *)
Lemma on_data_step (settings : purrito_settings) (env : libc)
    (u : upload) (w : world) (chunk : string) (is_last : bool) (r : region) :
  buffer u = Some r ->
  Z.of_nat (length r) = max_chars settings + 1 ->
  0 <= read_count u <= max_chars settings ->
  let n := copy_size (max_chars settings) (read_count u) chunk in
  let copied := take (Z.to_nat n) (list_ascii_of_string chunk) in
  let r1 := take (Z.to_nat (read_count u)) r ++ map Some copied
              ++ drop (Z.to_nat (read_count u + n)) r in
  let r2 := <[Z.to_nat (read_count u + n) := Some NUL]> r1 in
  Z.of_nat (length copied) = n
  /\ on_data settings env u w chunk is_last =
       if is_last then
         match save_buffer r2 settings env w with
         | Some (paste_url, w') =>
             Some ({| buffer := Some r2; read_count := read_count u + n |},
                   w', [c_str paste_url])
         | None => None
         end
       else Some ({| buffer := Some r1; read_count := read_count u |}, w, []).
Proof.
  intros Hbuf Hlen Hrc n copied r1 r2.
  pose proof (max_chars_range settings) as Hmc.
  assert (Hn : 0 <= n /\ n <= max_chars settings - read_count u
               /\ n <= Z.of_nat (String.length chunk))
    by (apply copy_size_bounds; lia).
  assert (Hcopied : Z.of_nat (length copied) = n).
  { subst copied. rewrite length_take, length_list_ascii_of_string. lia. }
  split; [exact Hcopied |].
  unfold on_data. fold n.
  unfold string_view_copy. rewrite Hbuf.
  replace (Z.min n (Z.of_nat (String.length chunk))) with n by lia.
  fold copied. rewrite write_at_eq by lia. cbn [option_map].
  replace (Z.to_nat (read_count u) + length copied)%nat
    with (Z.to_nat (read_count u + n)) by lia.
  fold r1. destruct is_last; [| reflexivity].
  cbn [orb]. rewrite (wrap32_small (n + read_count u)) by (pow2; lia).
  replace (n + read_count u) with (read_count u + n) by lia.
  assert (Hr1 : length r1 = length r).
  { subst r1. rewrite !length_app, length_take, length_map, length_drop. lia. }
  unfold poke. rewrite Hr1.
  destruct (_ && _) eqn:E; [| lia]. fold r2. reflexivity.
Qed.

(** ** What a multi-fragment upload stores *)

(** Fragments that are not final leave the counter at 0, the shared state and
    the response as they were. *)
Lemma run_not_last_keeps_counter settings env (pre : list string) :
  forall res w u,
    data_handler res = Some u -> read_count u = 0 -> buffer_ok settings u ->
    exists res' u',
      run settings env (map not_last pre) res w = Some (res', w)
      /\ data_handler res' = Some u' /\ read_count u' = 0
      /\ buffer_ok settings u' /\ sent res' = sent res.
Proof.
  induction pre as [| chunk pre IH]; intros res w u Hu Hrc Hbuf.
  - exists res, u. cbn. auto.
  - assert (Hok : upload_ok settings u).
    { unfold upload_ok. pose proof (max_chars_range settings). lia. }
    destruct (on_data_not_last_defined settings env u w chunk Hok Hbuf)
      as (u1 & Hstep & _ & Hbuf1).
    pose proof (on_data_not_last _ _ _ _ _ _ _ _ Hstep) as (_ & _ & Hrc1).
    cbn [map not_last run deliver]. rewrite Hu, Hstep.
    edestruct (IH {| data_handler := Some u1;
                     abort_handler := abort_handler res;
                     sent := sent res ++ [] |} w u1)
      as (res' & u' & Hrun & Hu' & Hrc' & Hbuf' & Hsent);
      [reflexivity | congruence | exact Hbuf1 |].
    exists res', u'. cbn [sent] in Hsent. rewrite app_nil_r in Hsent. auto.
Qed.

Lemma run_app_not_last settings env (pre : list string) (tl : list event) :
  forall res w res1 w1,
    run settings env (map not_last pre) res w = Some (res1, w1) ->
    run settings env (map not_last pre ++ tl) res w
    = run settings env tl res1 w1.
Proof.
  induction pre as [| c pre IH]; intros res w res1 w1 Hrun.
  - cbn in Hrun. inversion Hrun; subst. reflexivity.
  - cbn [map not_last app run] in *.
    destruct (deliver settings env (not_last c) res w) as [[res2 w2] |];
      [| discriminate].
    apply IH. exact Hrun.
Qed.

(** The defect behind C1 and C2 in general: whatever fragments come first,
    the stored paste is the C string made of the first
    [min(max_chars, length)] characters of the final fragment alone. *)
Lemma request_stores_last_fragment (settings : purrito_settings) (env : libc)
    (w : world) (pre : list string) (final : string)
    (slug : string) (g' : mt19937) :
  malloc_null env (wrap32 (max_chars settings + 1)) = false ->
  max_chars settings < 2 ^ 31 ->
  Z.of_nat (String.length final) < 2 ^ 31 ->
  random_slug (slug_size settings) (rng w) = Some (slug, g') ->
  opened (fopen_w env (paste_path settings slug)) = true ->
  (String.length final <= written (fopen_w env (paste_path settings slug)))%nat ->
  let kept := take (Z.to_nat (Z.min (max_chars settings)
                                (Z.of_nat (String.length final))))
                (list_ascii_of_string final) in
  exists res w',
    request settings env (map not_last pre ++ [Data final true]) w
      = Some (res, w')
    /\ files w' !! paste_path settings slug
       = Some (string_of_list_ascii (until_nul kept))
    /\ sent res = [c_str (domain settings +:+ slug +:+ newline)].
Proof.
  intros Hm Hmc Hlen Hslug Hopen Hfull kept.
  pose proof (max_chars_range settings) as Hrange.
  unfold request. rewrite purr_post_eq, Hm.
  set (res0 := {| data_handler := _; abort_handler := true; sent := _ |}).
  set (u0 := {| buffer := Some (repeat None (Z.to_nat (wrap32 (max_chars settings + 1))));
                read_count := 0 |}).
  assert (Hbuf0 : buffer_ok settings u0).
  { eexists. cbn [buffer read_count u0]. split; [reflexivity |].
    rewrite repeat_length. pose proof (wrap32_range (max_chars settings + 1)).
    split; [lia | reflexivity]. }
  destruct (run_not_last_keeps_counter settings env pre res0 w u0
              eq_refl eq_refl Hbuf0)
    as (res1 & u1 & Hrun & Hu1 & Hrc1 & (r & Hr & Hrlen & _) & Hsent1).
  rewrite wrap32_small in Hrlen by (pow2; lia).
  rewrite (run_app_not_last _ _ _ _ _ _ _ _ Hrun). cbn [run deliver]. rewrite Hu1.
  destruct (on_data_step settings env u1 w final true r Hr Hrlen)
    as (Hcopied & Hstep); [lia |].
  cbv zeta in Hstep, Hcopied.
  rewrite copy_size_clamp in Hstep, Hcopied by lia.
  rewrite Hrc1 in Hstep, Hcopied.
  rewrite Z.sub_0_r, Z.add_0_l in Hstep. rewrite Z.sub_0_r in Hcopied.
  unfold spec_clamp in Hstep, Hcopied.
  replace (Z.max 0 (Z.min (max_chars settings) (Z.of_nat (String.length final))))
    with (Z.min (max_chars settings) (Z.of_nat (String.length final)))
    in Hstep, Hcopied by lia.
  fold kept in Hstep, Hcopied.
  set (n := Z.min (max_chars settings) (Z.of_nat (String.length final))) in *.
  change (Z.to_nat 0) with 0%nat in Hstep. rewrite take_0 in Hstep.
  cbn [app] in Hstep.
  assert (Hdrop : exists y tl, drop (Z.to_nat n) r = y :: tl).
  { destruct (drop (Z.to_nat n) r) as [| y tl] eqn:E; [| eauto].
    apply (f_equal length) in E. rewrite length_drop in E. cbn in E. lia. }
  destruct Hdrop as (y & tl & Hdrop). rewrite Hdrop in Hstep.
  replace (Z.to_nat n) with (length (map Some kept) + 0)%nat in Hstep at 1
    by (rewrite length_map; lia).
  rewrite insert_app_r in Hstep. cbn [list_insert insert] in Hstep.
  assert (Hsave : save_buffer (map Some kept ++ Some NUL :: tl) settings env w
                  = Some (domain settings +:+ slug +:+ newline,
                          {| rng := g';
                             files := <[paste_path settings slug :=
                                          string_of_list_ascii (until_nul kept)]>
                                        (files w);
                             log := if status (fopen_w env (paste_path settings slug)) <? 0
                                    then log w ++ [WarnWrite (status (fopen_w env (paste_path settings slug)))]
                                    else log w |})).
  { unfold save_buffer. rewrite Hslug. fold (paste_path settings slug).
    rewrite Hopen, cstr_read_terminated. rewrite take_ge; [reflexivity |].
    pose proof (until_nul_shorter kept). subst kept. rewrite length_take in *.
    rewrite length_list_ascii_of_string in *. lia. }
  rewrite Hsave in Hstep. rewrite Hstep.
  eexists _, _. split; [reflexivity |]. cbn [files sent].
  rewrite lookup_insert_eq, Hsent1. split; reflexivity.
Qed.

(** ** Storage failures *)

(** The part of C5 the source does implement: once the file is opened, the
    URL is returned whatever [fprintf] wrote and returned, and a negative
    status only adds a warning to the log. *)
Lemma save_buffer_url_any_status (settings : purrito_settings) (env : libc)
    (w : world) (buffer : region) (text : list ascii) :
  0 <= slug_size settings < INT_MAX ->
  cstr_read buffer = Some text ->
  (forall path, opened (fopen_w env path) = true) ->
  exists slug w',
    save_buffer buffer settings env w
      = Some (domain settings +:+ slug +:+ newline, w')
    /\ Z.of_nat (String.length slug) = slug_size settings
    /\ (status (fopen_w env (paste_path settings slug)) < 0 ->
        log w' = log w ++ [WarnWrite (status (fopen_w env (paste_path settings slug)))])
    /\ (0 <= status (fopen_w env (paste_path settings slug)) -> log w' = log w).
Proof.
  intros Hn Htext Hopen.
  destruct (save_buffer_ok settings env w buffer text Hn Htext)
    as (slug & g' & _ & Hlen & _ & Hsave).
  cbv zeta in Hsave. rewrite Hopen in Hsave.
  exists slug. eexists. split; [exact Hsave |]. split; [exact Hlen |].
  cbn [log]. split; intros Hst.
  - destruct (_ <? 0) eqn:E; [reflexivity | lia].
  - destruct (_ <? 0) eqn:E; [lia | reflexivity].
Qed.

Example write_failure_is_only_logged :
  match request (demo_settings 10) failing_libc [Data "abc" true] demo_world with
  | Some (res, w) =>
      sent res = ["http://p.example/07els" +:+ newline]
      /\ log w = [WarnWrite (-1)]
      /\ files w !! "/var/pastes/07els"%string = Some ""%string
  | None => False
  end.
Proof. vm_compute. repeat split. Qed.

(** ** Reachable states *)

Lemma reachable_session (settings : purrito_settings) (env : libc)
    (w0 : world) (res : connection) (w : world) :
  reachable settings env w0 res w ->
  exists u, data_handler res = Some u /\ upload_ok settings u.
Proof.
  induction 1 as [| ev res res' w w' _ (u & Hu & Hok) Hstep].
  - rewrite purr_post_eq. cbn [fst data_handler]. eexists. split; [reflexivity |].
    unfold upload_ok. cbn [read_count].
    pose proof (max_chars_range settings). lia.
  - destruct ev as [chunk is_last |]; cbn [deliver] in Hstep.
    + rewrite Hu in Hstep.
      destruct (on_data settings env u w chunk is_last)
        as [[[u' w1] bodies] |] eqn:Hd; [| discriminate].
      injection Hstep as <- <-. exists u'. split; [reflexivity |].
      eapply on_data_read_count; eassumption.
    + exists u. destruct (abort_handler res); injection Hstep as <- <-; auto.
Qed.

(** ** The abort handler stays attached *)

Lemma deliver_abort_handler settings env ev res w res' w' :
  deliver settings env ev res w = Some (res', w') ->
  abort_handler res' = abort_handler res.
Proof.
  destruct ev as [chunk is_last |]; cbn [deliver].
  - destruct (data_handler res) as [u |]; [| intros [= <- _]; reflexivity].
    destruct (on_data settings env u w chunk is_last) as [[[u' w1] b] |];
      [| discriminate].
    intros [= <- _]. reflexivity.
  - destruct (abort_handler res) eqn:E; intros [= <- _]; exact E.
Qed.

Lemma run_not_last_abort_handler settings env (pre : list string) :
  forall res w res' w',
    run settings env (map not_last pre) res w = Some (res', w') ->
    abort_handler res' = abort_handler res.
Proof.
  induction pre as [| c pre IH]; intros res w res' w' Hrun.
  - cbn in Hrun. injection Hrun as <- _. reflexivity.
  - cbn [map not_last run] in Hrun.
    destruct (deliver settings env (not_last c) res w) as [[res1 w1] |] eqn:Hd;
      [| discriminate].
    rewrite (IH _ _ _ _ Hrun). eapply deliver_abort_handler, Hd.
Qed.

(** ** The session invariant *)

Lemma lookup_map_Some (l : list ascii) :
  forall j, (j < length l)%nat -> exists c, map Some l !! j = Some (Some c).
Proof.
  induction l as [| a l IH]; intros j Hj; cbn [length] in Hj; [lia |].
  destruct j as [| j]; cbn [map]; [exists a; reflexivity |].
  apply IH. lia.
Qed.

Lemma cstr_read_defined (k : nat) :
  forall r : region,
    initialised r k -> r !! k = Some (Some NUL) ->
    exists text, cstr_read r = Some text /\ (length text <= k)%nat.
Proof.
  induction k as [| k IH]; intros r Hinit Hnul.
  - destruct r as [| x r]; [discriminate |]. cbn in Hnul.
    injection Hnul as ->. exists []. split; [reflexivity | cbn; lia].
  - destruct (Hinit 0%nat) as (c & Hc); [lia |].
    destruct r as [| x r]; [discriminate |]. cbn in Hc. injection Hc as ->.
    cbn [cstr_read]. destruct (Ascii.eqb c NUL).
    + exists []. split; [reflexivity | cbn; lia].
    + destruct (IH r) as (text & Ht & Hlen).
      * intros i Hi. apply (Hinit (S i)). lia.
      * exact Hnul.
      * rewrite Ht. exists (c :: text). split; [reflexivity | cbn; lia].
Qed.

(** After the copy of [copied] at the counter, every cell below the end of
    the copy has been written. *)
Lemma initialised_after_copy (r : region) (rc : nat) (copied : list ascii) :
  (rc + length copied <= length r)%nat ->
  initialised r rc ->
  initialised (take rc r ++ map Some copied ++ drop (rc + length copied) r)
    (rc + length copied).
Proof.
  intros Hfit Hinit i Hi.
  assert (Htake : length (take rc r) = rc) by (rewrite length_take; lia).
  destruct (Nat.lt_ge_cases i rc) as [Hlow | Hhigh].
  - rewrite lookup_app_l by lia. rewrite lookup_take_lt by exact Hlow.
    apply Hinit, Hlow.
  - rewrite lookup_app_r by lia. rewrite Htake.
    rewrite lookup_app_l by (rewrite length_map; lia).
    apply lookup_map_Some. lia.
Qed.

Lemma initialised_insert (r : region) (k j : nat) (c : ascii) :
  initialised r k -> initialised (<[j := Some c]> r) k.
Proof.
  intros Hinit i Hi. destruct (Hinit i Hi) as (a & Ha).
  destruct (Nat.eq_dec j i) as [-> | Hne].
  - exists c. apply list_lookup_insert_eq. eapply lookup_lt_Some, Ha.
  - exists a. rewrite list_lookup_insert_ne by exact Hne. exact Ha.
Qed.

Lemma initialised_weaken (r : region) (k k' : nat) :
  (k' <= k)%nat -> initialised r k -> initialised r k'.
Proof. intros Hle Hinit i Hi. apply Hinit. lia. Qed.

(** One call of the callback keeps the session invariant and has a result
    as soon as slugs are drawn and files open. *)
Lemma on_data_defined (settings : purrito_settings) (env : libc)
    (u : upload) (w : world) (chunk : string) (is_last : bool) :
  0 <= slug_size settings < INT_MAX ->
  (forall path, opened (fopen_w env path) = true) ->
  session_inv settings u ->
  exists u' w' bodies,
    on_data settings env u w chunk is_last = Some (u', w', bodies)
    /\ session_inv settings u'.
Proof.
  intros Hn Hopen (r & Hbuf & Hlen & Hrc & Hinit).
  destruct (on_data_step settings env u w chunk is_last r Hbuf Hlen Hrc)
    as (Hcopied & Hstep).
  cbv zeta in Hstep, Hcopied.
  set (n := copy_size (max_chars settings) (read_count u) chunk) in *.
  set (copied := take (Z.to_nat n) (list_ascii_of_string chunk)) in *.
  pose proof (max_chars_range settings) as Hmc.
  destruct (copy_size_bounds (max_chars settings) (read_count u) chunk Hrc)
    as (H0 & Hroom & _); [lia |]. fold n in H0, Hroom.
  replace (Z.to_nat (read_count u + n))
    with (Z.to_nat (read_count u) + length copied)%nat in Hstep by lia.
  set (r1 := take (Z.to_nat (read_count u)) r ++ map Some copied
               ++ drop (Z.to_nat (read_count u) + length copied) r) in *.
  assert (Hr1 : length r1 = length r).
  { subst r1. rewrite !length_app, length_take, length_map, length_drop. lia. }
  assert (Hinit1 : initialised r1 (Z.to_nat (read_count u) + length copied)).
  { apply initialised_after_copy; [lia | exact Hinit]. }
  rewrite Hstep. destruct is_last.
  - set (r2 := <[(Z.to_nat (read_count u) + length copied)%nat := Some NUL]> r1) in *.
    assert (Hr2 : length r2 = length r) by (subst r2; rewrite length_insert; exact Hr1).
    assert (Hinit2 : initialised r2 (Z.to_nat (read_count u) + length copied))
      by (apply initialised_insert, Hinit1).
    assert (Hnul : r2 !! (Z.to_nat (read_count u) + length copied)%nat
                   = Some (Some NUL))
      by (apply list_lookup_insert_eq; lia).
    destruct (cstr_read_defined _ r2 Hinit2 Hnul) as (text & Htext & _).
    destruct (save_buffer_ok settings env w r2 text Hn Htext)
      as (slug & g' & _ & _ & _ & Hsave).
    cbv zeta in Hsave. rewrite Hopen in Hsave. rewrite Hsave.
    eexists _, _, _. split; [reflexivity |].
    exists r2. cbn [buffer read_count].
    split; [reflexivity |]. split; [lia |]. split; [lia |].
    replace (Z.to_nat (read_count u + n))
      with (Z.to_nat (read_count u) + length copied)%nat by lia.
    exact Hinit2.
  - eexists _, _, _. split; [reflexivity |].
    exists r1. cbn [buffer read_count].
    split; [reflexivity |]. split; [lia |]. split; [exact Hrc |].
    eapply initialised_weaken; [| exact Hinit1]. lia.
Qed.

Lemma run_defined (settings : purrito_settings) (env : libc)
    (evs : list event) :
  0 <= slug_size settings < INT_MAX ->
  (forall path, opened (fopen_w env path) = true) ->
  forall res w u,
    data_handler res = Some u -> session_inv settings u ->
    exists res' w', run settings env evs res w = Some (res', w').
Proof.
  intros Hn Hopen.
  induction evs as [| ev evs IH]; intros res w u Hu Hinv.
  - cbn. eauto.
  - destruct ev as [chunk is_last |].
    + destruct (on_data_defined settings env u w chunk is_last Hn Hopen Hinv)
        as (u' & w' & bodies & Hstep & Hinv').
      cbn [run deliver]. rewrite Hu, Hstep.
      eapply IH; [reflexivity | exact Hinv'].
    + cbn [run deliver]. destruct (abort_handler res); eauto.
Qed.

Lemma cstr_read_bound (r : region) :
  forall (k : nat) (text : list ascii),
    r !! k = Some (Some NUL) ->
    cstr_read r = Some text ->
    (length text <= k)%nat /\ Forall (fun c => c <> NUL) text.
Proof.
  induction r as [| x r IH]; intros k text Hnul Hread; [discriminate |].
  destruct x as [c |]; [| discriminate]. cbn [cstr_read] in Hread.
  destruct (Ascii.eqb_spec c NUL) as [-> | Hc].
  - injection Hread as <-. split; [cbn; lia | constructor].
  - destruct (cstr_read r) as [t |] eqn:Ht; [| discriminate].
    injection Hread as <-.
    destruct k as [| k]; [cbn in Hnul; congruence |].
    destruct (IH k t Hnul eq_refl) as (Hlen & Hall).
    split; [cbn; lia | constructor; assumption].
Qed.

(** One call of the callback keeps the session invariant; every file is
    left as it was, except the one it writes, which holds at most
    [max_chars] characters, none of them NUL. *)
Lemma on_data_writes_bounded (settings : purrito_settings) (env : libc)
    (u u' : upload) (w w' : world) (chunk : string) (is_last : bool)
    (bodies : list string) :
  session_inv settings u ->
  on_data settings env u w chunk is_last = Some (u', w', bodies) ->
  session_inv settings u'
  /\ forall path,
       files w' !! path = files w !! path
       \/ exists content,
            files w' !! path = Some content
            /\ Z.of_nat (String.length content) <= max_chars settings
            /\ Forall (fun c => c <> NUL) (list_ascii_of_string content).
Proof.
  intros (r & Hbuf & Hlen & Hrc & Hinit) Hdata.
  destruct (on_data_step settings env u w chunk is_last r Hbuf Hlen Hrc)
    as (Hcopied & Hstep).
  cbv zeta in Hstep, Hcopied. rewrite Hstep in Hdata. clear Hstep.
  set (n := copy_size (max_chars settings) (read_count u) chunk) in *.
  set (copied := take (Z.to_nat n) (list_ascii_of_string chunk)) in *.
  pose proof (max_chars_range settings) as Hmc.
  destruct (copy_size_bounds (max_chars settings) (read_count u) chunk Hrc)
    as (H0 & Hroom & _); [lia |]. fold n in H0, Hroom.
  replace (Z.to_nat (read_count u + n))
    with (Z.to_nat (read_count u) + length copied)%nat in Hdata by lia.
  set (r1 := take (Z.to_nat (read_count u)) r ++ map Some copied
               ++ drop (Z.to_nat (read_count u) + length copied) r) in *.
  assert (Hr1 : length r1 = length r).
  { subst r1. rewrite !length_app, length_take, length_map, length_drop. lia. }
  assert (Hinit1 : initialised r1 (Z.to_nat (read_count u) + length copied)).
  { apply initialised_after_copy; [lia | exact Hinit]. }
  destruct is_last.
  - set (k := (Z.to_nat (read_count u) + length copied)%nat) in *.
    set (r2 := <[k := Some NUL]> r1) in *.
    assert (Hnul : r2 !! k = Some (Some NUL))
      by (apply list_lookup_insert_eq; lia).
    destruct (save_buffer r2 settings env w) as [[url w2] |] eqn:Hsave;
      [| discriminate].
    injection Hdata as <- <- _. split.
    + exists r2. cbn [buffer read_count]. split; [reflexivity |].
      split; [subst r2; rewrite length_insert; lia |]. split; [lia |].
      replace (Z.to_nat (read_count u + n)) with k by lia.
      apply initialised_insert, Hinit1.
    + intros path. unfold save_buffer in Hsave.
      destruct (random_slug _ _) as [[slug g'] |]; [| discriminate].
      destruct (opened _); [| discriminate].
      destruct (cstr_read r2) as [text |] eqn:Htext; [| discriminate].
      injection Hsave as _ <-. cbn [files].
      destruct (cstr_read_bound r2 k text Hnul Htext) as (Hshort & Hclean).
      rewrite lookup_insert. case_decide as Hpath.
      * right. eexists. split; [reflexivity |].
        rewrite length_string_of_list_ascii, length_take,
          list_ascii_of_string_of_list_ascii.
        split; [lia | apply Forall_take, Hclean].
      * left. reflexivity.
  - injection Hdata as <- <- _. split; [| auto].
    exists r1. cbn [buffer read_count]. split; [reflexivity |].
    split; [lia |]. split; [exact Hrc |].
    eapply initialised_weaken; [| exact Hinit1]. lia.
Qed.

Lemma run_writes_bounded (settings : purrito_settings) (env : libc)
    (evs : list event) :
  forall res w res' w' u,
    data_handler res = Some u -> session_inv settings u ->
    run settings env evs res w = Some (res', w') ->
    forall path,
      files w' !! path = files w !! path
      \/ exists content,
           files w' !! path = Some content
           /\ Z.of_nat (String.length content) <= max_chars settings
           /\ Forall (fun c => c <> NUL) (list_ascii_of_string content).
Proof.
  induction evs as [| ev evs IH]; intros res w res' w' u Hu Hinv Hrun path.
  - cbn in Hrun. injection Hrun as _ <-. auto.
  - destruct ev as [chunk is_last |].
    + cbn [run deliver] in Hrun. rewrite Hu in Hrun.
      destruct (on_data settings env u w chunk is_last)
        as [[[u1 w1] bodies] |] eqn:Hd; [| discriminate].
      destruct (on_data_writes_bounded _ _ _ _ _ _ _ _ _ Hinv Hd)
        as (Hinv1 & Hstep).
      destruct (fun Hh => IH _ _ _ _ u1 Hh Hinv1 Hrun path)
        as [Hsame | Hnew]; [reflexivity | | right; exact Hnew].
      rewrite Hsame. apply Hstep.
    + cbn [run deliver] in Hrun.
      destruct (abort_handler res); injection Hrun as _ <-; auto.
Qed.

(** ** Reachable states carry the session invariant *)

Lemma reachable_session_inv (settings : purrito_settings) (env : libc)
    (w0 : world) (res : connection) (w : world) :
  malloc_null env (wrap32 (max_chars settings + 1)) = false ->
  max_chars settings < 2 ^ 32 - 1 ->
  reachable settings env w0 res w ->
  exists u, data_handler res = Some u /\ session_inv settings u.
Proof.
  intros Hm Hcap. pose proof (max_chars_range settings) as Hmc.
  induction 1 as [| ev res res' w w' _ (u & Hu & Hinv) Hstep].
  - rewrite purr_post_eq, Hm. cbn [fst data_handler].
    eexists. split; [reflexivity |].
    eexists. cbn [buffer read_count]. split; [reflexivity |].
    rewrite repeat_length, wrap32_small by (pow2; lia).
    split; [lia |]. split; [lia |].
    intros i Hi. change (Z.to_nat 0) with 0%nat in Hi. lia.
  - destruct ev as [chunk is_last |]; cbn [deliver] in Hstep.
    + rewrite Hu in Hstep.
      destruct (on_data settings env u w chunk is_last)
        as [[[u' w1] bodies] |] eqn:Hd; [| discriminate].
      injection Hstep as <- <-. exists u'. split; [reflexivity |].
      eapply on_data_writes_bounded; eassumption.
    + exists u. destruct (abort_handler res); injection Hstep as <- <-; auto.
Qed.

(** Every state a request goes through is a reachable state. *)
Lemma run_reachable (settings : purrito_settings) (env : libc) (w0 : world)
    (evs : list event) :
  forall res w res' w',
    reachable settings env w0 res w ->
    run settings env evs res w = Some (res', w') ->
    reachable settings env w0 res' w'.
Proof.
  induction evs as [| ev evs IH]; intros res w res' w' Hreach Hrun.
  - cbn in Hrun. injection Hrun as <- <-. exact Hreach.
  - destruct ev as [chunk is_last |].
    + cbn [run] in Hrun.
      destruct (deliver settings env (Data chunk is_last) res w)
        as [[res1 w1] |] eqn:Hd; [| discriminate].
      eapply IH; [| exact Hrun]. eapply reach_deliver; eassumption.
    + cbn [run] in Hrun. eapply reach_deliver; eassumption.
Qed.

Lemma request_reachable (settings : purrito_settings) (env : libc)
    (evs : list event) (w : world) (res : connection) (w' : world) :
  request settings env evs w = Some (res, w') ->
  reachable settings env w res w'.
Proof.
  unfold request. intros Hrun.
  pose proof (reach_post settings env w) as Hstart.
  destruct (purr_post settings env fresh_connection w) as [res0 w0].
  eapply run_reachable; eassumption.
Qed.

(** * The claims of the specification *)

(** C1, the truncation scenario of the spec: capacity 10, fragments "hello"
    and " world!!!" with the final flag on the second. The first fragment is
    copied at offset 0 but not counted, the second one is copied over it: the
    stored paste is " world!!!" (9 bytes), not "hello worl". *)
Theorem truncation_scenario_keeps_last_fragment :
  match request (demo_settings 10) good_libc
          [Data "hello" false; Data " world!!!" true] demo_world with
  | Some (res, w) =>
      files w !! "/var/pastes/07els"%string = Some " world!!!"%string
      /\ files w !! "/var/pastes/07els"%string <> Some "hello worl"%string
      /\ option_map read_count (data_handler res) = Some 9
  | None => False
  end.
Proof. vm_compute. repeat split. discriminate. Qed.

(** C2, two fragments below the capacity: with capacity 10 and the fragments
    "ab" and "cd" (final), the stored paste is "cd", not "abcd". *)
Theorem below_cap_keeps_last_fragment :
  match request (demo_settings 10) good_libc
          [Data "ab" false; Data "cd" true] demo_world with
  | Some (res, w) =>
      files w !! "/var/pastes/07els"%string = Some "cd"%string
      /\ files w !! "/var/pastes/07els"%string <> Some "abcd"%string
      /\ option_map read_count (data_handler res) = Some 2
  | None => False
  end.
Proof. vm_compute. repeat split. discriminate. Qed.

(** C3 as stated fails for a capacity of 2 GiB: the room left, 2^31, is
    negative once converted to [int], so no character of the fragment "a" is
    copied (the connection is as [read_paste] left it) although the clamp of
    the spec is 1. *)
Lemma clamp_wraps_at_2GiB :
  copy_size (max_chars (demo_settings 2147483648)) 0 "a"
    <> spec_clamp (max_chars (demo_settings 2147483648) - 0) 0
         (Z.of_nat (String.length "a"))
  /\ spec_clamp (max_chars (demo_settings 2147483648) - 0) 0
       (Z.of_nat (String.length "a")) = 1
  /\ copy_size (max_chars (demo_settings 2147483648)) 0 "a" = 0
  /\ request (demo_settings 2147483648) good_libc [Data "a" false] demo_world
     = Some (fst (purr_post (demo_settings 2147483648) good_libc
                    fresh_connection demo_world), demo_world).
Proof.
  split; [vm_compute; discriminate |].
  split; [vm_compute; reflexivity |].
  split; [vm_compute; reflexivity |].
  unfold request. rewrite purr_post_eq.
  change (malloc_null good_libc _) with false. cbn iota.
  generalize (repeat (None : cell)
                (Z.to_nat (wrap32 (max_chars (demo_settings 2147483648) + 1)))).
  intros r. vm_compute. reflexivity.
Qed.

(** C3, amended: while the room left and the fragment length are below 2^31
    (the range of the [int] in which the clamp is computed), the callback
    copies [clamp(capacity - bytes_received, 0, fragment.length)] characters
    of the fragment at offset [bytes_received]; a fragment that is not final
    changes nothing else, a final one advances the counter by that number,
    writes the terminator there and hands the buffer to [save_buffer]. *)
Theorem on_data_copies_clamped (settings : purrito_settings) (env : libc)
    (u : upload) (w : world) (chunk : string) (is_last : bool) (r : region) :
  buffer u = Some r ->
  Z.of_nat (length r) = max_chars settings + 1 ->
  0 <= read_count u <= max_chars settings ->
  max_chars settings - read_count u < 2 ^ 31 ->
  Z.of_nat (String.length chunk) < 2 ^ 31 ->
  let n := spec_clamp (max_chars settings - read_count u) 0
             (Z.of_nat (String.length chunk)) in
  let copied := take (Z.to_nat n) (list_ascii_of_string chunk) in
  let r1 := take (Z.to_nat (read_count u)) r ++ map Some copied
              ++ drop (Z.to_nat (read_count u + n)) r in
  let r2 := <[Z.to_nat (read_count u + n) := Some NUL]> r1 in
  Z.of_nat (length copied) = n
  /\ on_data settings env u w chunk is_last =
       if is_last then
         match save_buffer r2 settings env w with
         | Some (paste_url, w') =>
             Some ({| buffer := Some r2; read_count := read_count u + n |},
                   w', [c_str paste_url])
         | None => None
         end
       else Some ({| buffer := Some r1; read_count := read_count u |}, w, []).
Proof.
  intros Hbuf Hlen Hrc Hroom Hchunk.
  rewrite <- (copy_size_clamp (max_chars settings) (read_count u) chunk)
    by lia.
  apply on_data_step; assumption.
Qed.

Lemma on_data_copies_clamped_witness :
  on_data (demo_settings 10) good_libc
    {| buffer := Some (repeat None 11); read_count := 0 |}
    demo_world "hello" false
  = Some ({| buffer := Some (map Some (list_ascii_of_string "hello")
                               ++ repeat None 6);
             read_count := 0 |}, demo_world, []).
Proof.
  refine (proj2 (on_data_copies_clamped (demo_settings 10) good_libc
                   {| buffer := Some (repeat None 11); read_count := 0 |}
                   demo_world "hello" false (repeat None 11)
                   eq_refl eq_refl _ _ _)).
  - vm_compute. split; discriminate.
  - vm_compute. reflexivity.
  - vm_compute. reflexivity.
Defined.

(** C4, at a failing allocation: [read_paste] does not test the pointer
    returned by [malloc]. It returns 0, the callback is registered with the
    null buffer, the abort handler is attached and nothing is logged; the
    final fragment then writes through the null pointer. *)
Theorem null_buffer_is_not_reported :
  fst (read_paste (demo_settings 10) null_libc fresh_connection) = 0
  /\ purr_post (demo_settings 10) null_libc fresh_connection demo_world
     = ({| data_handler := Some {| buffer := None; read_count := 0 |};
           abort_handler := true;
           sent := [] |}, demo_world)
  /\ log (snd (purr_post (demo_settings 10) null_libc fresh_connection
                 demo_world)) = []
  /\ request (demo_settings 10) null_libc [Data "abc" true] demo_world = None.
Proof. vm_compute. repeat split. Qed.

(** C5, when the file cannot be opened: [save_buffer] passes the null
    stream to [fprintf], so no URL comes back and nothing is logged or
    answered. *)
Theorem unopened_file_has_no_url :
  save_buffer (map Some (list_ascii_of_string "abc") ++ [Some NUL])
    (demo_settings 10) closed_libc demo_world = None
  /\ request (demo_settings 10) closed_libc [Data "abc" true] demo_world = None.
Proof. vm_compute. split; reflexivity. Qed.

(** C6 as stated fails on a NUL byte: the completed buffer "a\0b" is stored
    as "a". *)
Lemma nul_byte_cuts_the_paste :
  match save_buffer (map Some ["a"; NUL; "b"]%char ++ [Some NUL])
          (demo_settings 10) good_libc demo_world with
  | Some (_, w') =>
      files w' !! "/var/pastes/07els"%string = Some "a"%string
      /\ files w' !! "/var/pastes/07els"%string
         <> Some (string_of_list_ascii ["a"; NUL; "b"]%char)
  | None => False
  end.
Proof. vm_compute. split; [reflexivity | discriminate]. Qed.

(** C6, amended: for a buffer holding [content] followed by its terminator,
    once the slug is drawn, the file [storage_directory/<slug>] opened and
    the write complete, the file holds the characters of [content] before
    its first NUL; that is [content] itself (possibly empty) when it has no
    NUL. *)
Theorem save_buffer_stores_c_string (settings : purrito_settings) (env : libc)
    (w : world) (content : list ascii) (rest : region)
    (slug : string) (g' : mt19937) :
  random_slug (slug_size settings) (rng w) = Some (slug, g') ->
  opened (fopen_w env (paste_path settings slug)) = true ->
  (length (until_nul content)
     <= written (fopen_w env (paste_path settings slug)))%nat ->
  exists paste_url w',
    save_buffer (map Some content ++ Some NUL :: rest) settings env w
      = Some (paste_url, w')
    /\ files w' !! paste_path settings slug
       = Some (string_of_list_ascii (until_nul content))
    /\ (Forall (fun c => c <> NUL) content ->
        files w' !! paste_path settings slug
        = Some (string_of_list_ascii content)).
Proof.
  intros Hslug Hopen Hfull.
  unfold save_buffer. rewrite Hslug. fold (paste_path settings slug).
  rewrite Hopen, cstr_read_terminated.
  eexists _, _. split; [reflexivity |]. cbn [files].
  rewrite lookup_insert_eq, take_ge by exact Hfull.
  split; [reflexivity |].
  intros Hnonul. rewrite until_nul_id by exact Hnonul. reflexivity.
Qed.

Lemma save_buffer_stores_c_string_witness :
  exists paste_url w',
    save_buffer (map Some (list_ascii_of_string "abc") ++ Some NUL :: [None])
      (demo_settings 10) good_libc demo_world = Some (paste_url, w')
    /\ files w' !! paste_path (demo_settings 10) "07els"
       = Some (string_of_list_ascii (until_nul (list_ascii_of_string "abc")))
    /\ (Forall (fun c => c <> NUL) (list_ascii_of_string "abc") ->
        files w' !! paste_path (demo_settings 10) "07els"
        = Some (string_of_list_ascii (list_ascii_of_string "abc"))).
Proof.
  refine (save_buffer_stores_c_string (demo_settings 10) good_libc demo_world
            (list_ascii_of_string "abc") [None] "07els"
            {| outputs := outputs demo_engine; drawn := 5 |} _ _ _).
  - vm_compute. reflexivity.
  - reflexivity.
  - vm_compute. lia.
Defined.

(** C7: in every state of a request the counter is within
    [max_paste_size]. Every step that returns keeps it there; a fragment
    that is not final leaves the shared state and the response untouched,
    and on a final fragment the buffer given to [save_buffer] carries its
    terminator at the counter just set. With an allocated buffer and a
    capacity below 2^32 - 1 the steps do return: a fragment that is not
    final is always accepted and leaves the counter as it is, and, once
    slugs are drawn and files open, a final fragment advances the counter by
    the clamped [copy_size], still within [max_paste_size]. *)
Theorem read_count_within_capacity (settings : purrito_settings) (env : libc)
    (w0 : world) (res : connection) (w : world) :
  reachable settings env w0 res w ->
  exists u,
    data_handler res = Some u
    /\ 0 <= read_count u <= Z.of_N (max_paste_size settings)
    /\ (forall chunk is_last res' w',
          deliver settings env (Data chunk is_last) res w = Some (res', w') ->
          (exists u', data_handler res' = Some u'
             /\ 0 <= read_count u' <= Z.of_N (max_paste_size settings))
          /\ ((is_last = false /\ w' = w /\ sent res' = sent res)
              \/ (is_last = true
                  /\ exists u' r paste_url,
                       data_handler res' = Some u'
                       /\ buffer u' = Some r
                       /\ r !! Z.to_nat (read_count u') = Some (Some NUL)
                       /\ save_buffer r settings env w = Some (paste_url, w')
                       /\ sent res' = sent res ++ [c_str paste_url])))
    /\ (malloc_null env (wrap32 (max_chars settings + 1)) = false ->
        max_chars settings < 2 ^ 32 - 1 ->
        forall chunk,
          (exists res' u',
             deliver settings env (Data chunk false) res w = Some (res', w)
             /\ data_handler res' = Some u'
             /\ read_count u' = read_count u
             /\ sent res' = sent res)
          /\ (0 <= slug_size settings < INT_MAX ->
              (forall path, opened (fopen_w env path) = true) ->
              exists res' w' u',
                deliver settings env (Data chunk true) res w = Some (res', w')
                /\ data_handler res' = Some u'
                /\ read_count u'
                   = read_count u
                     + copy_size (max_chars settings) (read_count u) chunk
                /\ read_count u' <= Z.of_N (max_paste_size settings))).
Proof.
  intros Hreach. pose proof (max_chars_le settings) as Hcap.
  pose proof (max_chars_range settings) as Hmc.
  destruct (reachable_session _ _ _ _ _ Hreach) as (u & Hu & Hok).
  exists u. split; [exact Hu |].
  split; [unfold upload_ok in Hok; lia |]. split.
  - intros chunk is_last res' w' Hstep. split.
    { destruct (reachable_session _ _ _ _ _
                  (reach_deliver _ _ _ _ _ _ _ _ Hreach Hstep))
        as (u' & Hu' & Hok').
      exists u'. split; [exact Hu' |]. unfold upload_ok in Hok'. lia. }
    cbn [deliver] in Hstep. rewrite Hu in Hstep.
    destruct (on_data settings env u w chunk is_last)
      as [[[u' w1] bodies] |] eqn:Hd; [| discriminate].
    injection Hstep as <- <-. destruct is_last.
    + right. split; [reflexivity |].
      apply on_data_last in Hd as (r & url & Hbuf & Hnul & _ & Hsave & ->).
      exists u', r, url. cbn [data_handler sent]. auto.
    + left. apply on_data_not_last in Hd as (-> & -> & _).
      cbn [sent]. rewrite app_nil_r. auto.
  - intros Hm Hsize chunk.
    destruct (reachable_session_inv _ _ _ _ _ Hm Hsize Hreach)
      as (u2 & Hu2 & Hinv).
    rewrite Hu in Hu2. injection Hu2 as <-.
    split.
    + destruct Hinv as (r & Hbuf & Hlen & Hrc & _).
      assert (Hbok : buffer_ok settings u).
      { exists r. split; [exact Hbuf |].
        rewrite wrap32_small by (pow2; lia). split; [exact Hlen | lia]. }
      destruct (on_data_not_last_defined settings env u w chunk Hok Hbok)
        as (u' & Hstep & _ & _).
      pose proof (on_data_not_last _ _ _ _ _ _ _ _ Hstep) as (_ & _ & Hsame).
      cbn [deliver]. rewrite Hu, Hstep.
      eexists _, u'. split; [reflexivity |]. cbn [data_handler sent].
      split; [reflexivity |]. split; [exact Hsame | apply app_nil_r].
    + intros Hn Hopen.
      destruct (on_data_defined settings env u w chunk true Hn Hopen Hinv)
        as (u' & w' & bodies & Hstep & _).
      pose proof (on_data_last _ _ _ _ _ _ _ _ Hstep)
        as (_ & _ & _ & _ & Hcount & _).
      destruct (copy_size_bounds (max_chars settings) (read_count u) chunk Hok)
        as (H0 & Hroom & _); [lia |].
      rewrite wrap32_small in Hcount by (pow2; unfold upload_ok in Hok; lia).
      cbn [deliver]. rewrite Hu, Hstep.
      eexists _, w', u'. split; [reflexivity |]. cbn [data_handler].
      split; [reflexivity |]. split; lia.
Qed.

Lemma read_count_within_capacity_witness :
  exists u,
    data_handler
      (fst (default (fresh_connection, demo_world)
              (request (demo_settings 10) good_libc
                 [Data "hello" false; Data " world!!!" true] demo_world)))
    = Some u
    /\ 0 <= read_count u <= Z.of_N (max_paste_size (demo_settings 10))
    /\ exists res' w' u',
         deliver (demo_settings 10) good_libc (Data "overflowing" true)
           (fst (default (fresh_connection, demo_world)
                   (request (demo_settings 10) good_libc
                      [Data "hello" false; Data " world!!!" true] demo_world)))
           (snd (default (fresh_connection, demo_world)
                   (request (demo_settings 10) good_libc
                      [Data "hello" false; Data " world!!!" true] demo_world)))
         = Some (res', w')
         /\ data_handler res' = Some u'
         /\ read_count u'
            = read_count u
              + copy_size (max_chars (demo_settings 10)) (read_count u)
                  "overflowing"
         /\ read_count u' <= Z.of_N (max_paste_size (demo_settings 10)).
Proof.
  destruct (read_count_within_capacity (demo_settings 10) good_libc demo_world
              _ _
              (request_reachable (demo_settings 10) good_libc
                 [Data "hello" false; Data " world!!!" true] demo_world
                 _ _ eq_refl))
    as (u & Hu & Hbound & _ & Hsteps).
  exists u. split; [exact Hu |]. split; [exact Hbound |].
  destruct (Hsteps eq_refl) with (chunk := "overflowing"%string)
    as (_ & Hfinal).
  - vm_compute. reflexivity.
  - apply Hfinal.
    + vm_compute. split; [discriminate | reflexivity].
    + intros path. reflexivity.
Defined.

(** C8 as stated fails at the largest [int]: the size [slug_size + 1] of the
    character array is not an [int]. *)
Lemma random_slug_int_max : random_slug 2147483647 demo_engine = None.
Proof. vm_compute. reflexivity. Qed.

(** C8, amended: for every length [n] with [0 <= n < 2^31 - 1],
    [random_slug] returns a string of exactly [n] characters, each of them
    in [0-9a-z]. *)
Theorem random_slug_shape (n : Z) (g : mt19937) :
  0 <= n < 2 ^ 31 - 1 ->
  exists slug g',
    random_slug n g = Some (slug, g')
    /\ Z.of_nat (String.length slug) = n
    /\ Forall (fun c => digit_or_lower c = true) (list_ascii_of_string slug).
Proof.
  intros Hn. destruct (random_slug_ok n g Hn) as (slug & g' & H1 & H2 & H3 & _).
  exists slug, g'. auto.
Qed.

Lemma random_slug_shape_witness :
  exists slug g',
    random_slug 5 demo_engine = Some (slug, g')
    /\ Z.of_nat (String.length slug) = 5
    /\ Forall (fun c => digit_or_lower c = true) (list_ascii_of_string slug).
Proof.
  apply (random_slug_shape 5 demo_engine). vm_compute.
  split; [discriminate | reflexivity].
Defined.

(** C9: as long as no final fragment has been delivered (the events before
    the first abort contain none), no file is written, no word is drawn from
    the engine and no response is sent, whatever follows the abort; and with
    an allocated buffer such a request always runs to its end. *)
Theorem no_write_before_final (settings : purrito_settings) (env : libc)
    (evs : list event) (w : world) :
  no_final evs = true ->
  (forall res w',
     request settings env evs w = Some (res, w') ->
     files w' = files w /\ rng w' = rng w /\ sent res = [])
  /\ (malloc_null env (wrap32 (max_chars settings + 1)) = false ->
      exists res w', request settings env evs w = Some (res, w')).
Proof.
  intros Hnf. unfold request. split.
  - intros res w' Hrun. rewrite purr_post_eq in Hrun.
    apply (run_no_final _ _ _ Hnf) in Hrun. exact Hrun.
  - intros Hm. pose proof (purr_post_session_ok settings env w Hm) as Hok.
    destruct (purr_post settings env fresh_connection w) as [res0 w0].
    apply run_no_final_defined; assumption.
Qed.

Lemma no_write_before_final_witness :
  (forall res w',
     request (demo_settings 10) good_libc
       [Data "hello" false; Aborted; Data " world!!!" true] demo_world
     = Some (res, w') ->
     files w' = files demo_world /\ rng w' = rng demo_world /\ sent res = [])
  /\ (malloc_null good_libc (wrap32 (max_chars (demo_settings 10) + 1)) = false ->
      exists res w',
        request (demo_settings 10) good_libc
          [Data "hello" false; Aborted; Data " world!!!" true] demo_world
        = Some (res, w')).
Proof.
  apply (no_write_before_final (demo_settings 10) good_libc
           [Data "hello" false; Aborted; Data " world!!!" true] demo_world).
  reflexivity.
Defined.

(** C10: [read_paste] returns 0 on every input, so the [post] handler never
    takes its warning branch: it logs nothing, leaves the shared state as it
    was and always attaches the abort handler. *)
Theorem read_paste_returns_zero (settings : purrito_settings) (env : libc)
    (res : connection) (w : world) :
  fst (read_paste settings env res) = 0
  /\ snd (purr_post settings env res w) = w
  /\ abort_handler (fst (purr_post settings env res w)) = true
  /\ data_handler (fst (purr_post settings env res w))
     = data_handler (snd (read_paste settings env res)).
Proof. repeat split. Qed.

(** * Further properties of the code *)

(** ** random_slug and the engine *)

Lemma alphanum_at_get (word : Z) :
  String.get (Z.to_nat (alphanum_index word)) alphanum = Some (alphanum_at word).
Proof.
  unfold alphanum_at.
  assert (Hk : (Z.to_nat (alphanum_index word) < 36)%nat).
  { unfold alphanum_index. change (Z.of_nat (String.length alphanum)) with 36.
    pose proof (Z.mod_pos_bound (wrap32 word) 36 eq_refl). lia. }
  destruct (alphanum_get _ Hk) as (c & -> & _). reflexivity.
Qed.

Lemma slug_chars_S (g : mt19937) (n : nat) :
  slug_chars g (S n)
  = alphanum_at (outputs g (drawn g))
      :: slug_chars {| outputs := outputs g; drawn := S (drawn g) |} n.
Proof.
  unfold slug_chars. cbn [seq map outputs drawn]. rewrite Nat.add_0_r.
  rewrite <- seq_shift, map_map. apply (f_equal (cons _)), map_ext.
  intros i. rewrite Nat.add_succ_r. reflexivity.
Qed.

Lemma advance_S (g : mt19937) (n : nat) :
  advance {| outputs := outputs g; drawn := S (drawn g) |} n = advance g (S n).
Proof. unfold advance. cbn [outputs drawn]. f_equal. lia. Qed.

Lemma sample_loop_chars (todo : nat) :
  forall (pre : list ascii) (k : nat) (g : mt19937),
    sample_loop todo (Z.of_nat (length pre))
      (map Some pre ++ repeat None (todo + k)) g
    = Some (map Some (pre ++ slug_chars g todo) ++ repeat None k,
            advance g todo).
Proof.
  induction todo as [| todo IH]; intros pre k g.
  - cbn [sample_loop plus]. unfold slug_chars, advance. cbn [seq map].
    rewrite app_nil_r, Nat.add_0_r. destruct g; reflexivity.
  - cbn [sample_loop]. unfold rng_call.
    pose proof (alphanum_at_get (outputs g (drawn g))) as Hget.
    unfold alphanum_index in Hget. rewrite Hget.
    cbn [plus repeat]. rewrite poke_at by (rewrite length_map; reflexivity).
    specialize (IH (pre ++ [alphanum_at (outputs g (drawn g))]) k
                  {| outputs := outputs g; drawn := S (drawn g) |}).
    rewrite length_app, Nat2Z.inj_add in IH. cbn [length] in IH.
    change (Z.of_nat 1) with 1 in IH.
    rewrite map_app in IH. cbn [map] in IH. rewrite <- app_assoc in IH.
    cbn [app] in IH. rewrite IH.
    rewrite slug_chars_S, advance_S, <- app_assoc. reflexivity.
Qed.

(** The value of [random_slug] on the lengths it accepts. *)
Lemma random_slug_value (n : Z) (g : mt19937) :
  0 <= n < INT_MAX ->
  random_slug n g
  = Some (string_of_list_ascii (slug_chars g (Z.to_nat n)),
          advance g (Z.to_nat n)).
Proof.
  intros Hn. unfold random_slug.
  destruct (n + 1 <=? INT_MAX) eqn:E1; [| lia].
  destruct (0 <=? n + 1) eqn:E2; [| lia].
  replace (Z.to_nat (n + 1)) with (Z.to_nat n + 1)%nat by lia.
  pose proof (sample_loop_chars (Z.to_nat n) [] 1%nat g) as Hrun.
  cbn [length map app] in Hrun. change (Z.of_nat 0) with 0 in Hrun.
  rewrite Hrun. cbn [repeat].
  rewrite poke_at by (unfold slug_chars; rewrite !length_map, length_seq; lia).
  rewrite cstr_read_terminated, until_nul_id; [reflexivity |].
  unfold slug_chars. apply Forall_forall. intros c Hc.
  apply list_elem_of_In, in_map_iff in Hc as (i & <- & _).
  pose proof (alphanum_at_get (outputs g (drawn g + i)%nat)) as Hget.
  assert (Hk : (Z.to_nat (alphanum_index (outputs g (drawn g + i)%nat)) < 36)%nat).
  { unfold alphanum_index. change (Z.of_nat (String.length alphanum)) with 36.
    pose proof (Z.mod_pos_bound (wrap32 (outputs g (drawn g + i)%nat)) 36 eq_refl).
    lia. }
  destruct (alphanum_get _ Hk) as (c & Hc & Hclass).
  rewrite Hget in Hc. injection Hc as <-.
  apply digit_or_lower_not_nul, Hclass.
Qed.

Lemma random_slug_none (n : Z) (g : mt19937) :
  n < 0 \/ INT_MAX <= n -> random_slug n g = None.
Proof.
  intros Hn. unfold random_slug.
  destruct (n + 1 <=? INT_MAX) eqn:E1; [| reflexivity].
  destruct (0 <=? n + 1) eqn:E2; [| reflexivity].
  assert (n = -1) as -> by lia. reflexivity.
Qed.

Lemma get_string_of_list_ascii (l : list ascii) :
  forall i, String.get i (string_of_list_ascii l) = nth_error l i.
Proof.
  induction l as [| c l IH]; intros [| i]; cbn; auto.
Qed.

Lemma nth_error_map_seq {A : Type} (f : nat -> A) (n : nat) :
  forall start i,
    (i < n)%nat -> nth_error (map f (seq start n)) i = Some (f (start + i)%nat).
Proof.
  induction n as [| n IH]; intros start i Hi; [lia |].
  destruct i as [| i]; cbn [seq map nth_error].
  - rewrite Nat.add_0_r. reflexivity.
  - rewrite IH by lia. f_equal. f_equal. lia.
Qed.

Lemma string_of_list_ascii_app (l1 l2 : list ascii) :
  string_of_list_ascii (l1 ++ l2)
  = string_of_list_ascii l1 +:+ string_of_list_ascii l2.
Proof.
  induction l1 as [| c l1 IH]; cbn [app string_of_list_ascii];
    [reflexivity | rewrite IH; reflexivity].
Qed.

Lemma slug_chars_app (a b : nat) :
  forall g, slug_chars g (a + b) = slug_chars g a ++ slug_chars (advance g a) b.
Proof.
  induction a as [| a IH]; intros g.
  - cbn [plus]. unfold slug_chars at 2. cbn [seq map app].
    unfold slug_chars, advance. cbn [outputs drawn].
    apply map_ext. intros i. rewrite Nat.add_0_r. reflexivity.
  - cbn [plus]. rewrite !slug_chars_S, IH, advance_S. reflexivity.
Qed.

(** X1: on an accepted length [n], [random_slug] consumes exactly the next
    [n] words of the engine, in order: character [i] of the slug is
    [alphanum[word mod 36]] for the [i]-th of these words, and the engine is
    left [n] words further. *)
Theorem random_slug_reads_engine (n : Z) (g : mt19937) :
  0 <= n < INT_MAX ->
  exists slug,
    random_slug n g = Some (slug, advance g (Z.to_nat n))
    /\ String.length slug = Z.to_nat n
    /\ forall i, (i < Z.to_nat n)%nat ->
         String.get i slug = Some (alphanum_at (outputs g (drawn g + i)%nat)).
Proof.
  intros Hn. eexists. split; [apply random_slug_value, Hn |].
  split.
  - rewrite length_string_of_list_ascii. unfold slug_chars.
    rewrite length_map, length_seq. reflexivity.
  - intros i Hi. rewrite get_string_of_list_ascii. unfold slug_chars.
    rewrite nth_error_map_seq by exact Hi. reflexivity.
Qed.

Lemma random_slug_reads_engine_witness :
  exists slug,
    random_slug 5 demo_engine = Some (slug, advance demo_engine (Z.to_nat 5))
    /\ String.length slug = Z.to_nat 5
    /\ forall i, (i < Z.to_nat 5)%nat ->
         String.get i slug
         = Some (alphanum_at (outputs demo_engine (drawn demo_engine + i)%nat)).
Proof.
  apply (random_slug_reads_engine 5 demo_engine). vm_compute.
  split; [discriminate | reflexivity].
Defined.

(** X2: [random_slug] has no result exactly on the lengths that are negative
    (the array size is negative, or the terminator lands before the array)
    or for which [slug_size + 1] is not an [int]. *)
Theorem random_slug_domain (n : Z) (g : mt19937) :
  random_slug n g = None <-> n < 0 \/ INT_MAX <= n.
Proof.
  split.
  - intros Hnone.
    destruct (Z_lt_ge_dec n 0) as [Hneg | Hpos]; [left; exact Hneg |].
    destruct (Z_lt_ge_dec n INT_MAX) as [Hlt | Hge]; [| right; lia].
    rewrite random_slug_value in Hnone by lia. discriminate Hnone.
  - apply random_slug_none.
Qed.

(** X3: two slugs drawn one after the other are the two halves of one longer
    slug: drawing [n] then [m] characters gives the same characters and the
    same final engine as drawing [n + m] at once. *)
Theorem random_slug_concat (n m : Z) (g g1 g2 : mt19937) (s1 s2 : string) :
  random_slug n g = Some (s1, g1) ->
  random_slug m g1 = Some (s2, g2) ->
  n + m < INT_MAX ->
  random_slug (n + m) g = Some (s1 +:+ s2, g2).
Proof.
  intros H1 H2 Hsum.
  assert (Hn : 0 <= n < INT_MAX).
  { destruct (Z_lt_ge_dec n 0); [rewrite random_slug_none in H1 by lia; discriminate |].
    destruct (Z_lt_ge_dec n INT_MAX); [lia |].
    rewrite random_slug_none in H1 by lia. discriminate. }
  assert (Hm : 0 <= m < INT_MAX).
  { destruct (Z_lt_ge_dec m 0); [rewrite random_slug_none in H2 by lia; discriminate |].
    destruct (Z_lt_ge_dec m INT_MAX); [lia |].
    rewrite random_slug_none in H2 by lia. discriminate. }
  rewrite random_slug_value in H1 by exact Hn. injection H1 as <- <-.
  rewrite random_slug_value in H2 by exact Hm. injection H2 as <- <-.
  rewrite random_slug_value by lia.
  rewrite Z2Nat.inj_add by lia.
  rewrite slug_chars_app, string_of_list_ascii_app. f_equal. f_equal.
  unfold advance. cbn [outputs drawn]. f_equal. lia.
Qed.

Lemma random_slug_concat_witness :
  random_slug (2 + 3) demo_engine
  = Some ("07" +:+ "els",
          {| outputs := outputs demo_engine; drawn := 5 |}).
Proof.
  apply (random_slug_concat 2 3 demo_engine
           {| outputs := outputs demo_engine; drawn := 2 |}).
  - vm_compute. reflexivity.
  - vm_compute. reflexivity.
  - vm_compute. reflexivity.
Defined.

(** X4: the index [rng() % len] splits the 2^32 words of the engine unevenly:
    index [k] is hit by the words [36 * j + k], of which there are 119304648
    for [k < 4] and 119304647 for the other indices. *)
Theorem alphanum_index_classes (k word : Z) :
  0 <= k < 36 ->
  0 <= word < 2 ^ 32 ->
  alphanum_index word = k
  <-> exists j, 0 <= j < (if k <? 4 then 119304648 else 119304647)
                /\ word = 36 * j + k.
Proof.
  intros Hk Hword. unfold alphanum_index.
  rewrite wrap32_small by exact Hword.
  change (Z.of_nat (String.length alphanum)) with 36. pow2.
  split.
  - intros Hmod. exists (word / 36).
    pose proof (Z.div_mod word 36 ltac:(lia)) as Hdm.
    destruct (k <? 4) eqn:E; lia.
  - intros (j & Hj & ->).
    rewrite Z.add_comm, Z.mul_comm, Z.mod_add by lia.
    apply Z.mod_small. lia.
Qed.

Lemma alphanum_index_classes_witness :
  alphanum_index 4294967295 = 3
  <-> exists j, 0 <= j < (if 3 <? 4 then 119304648 else 119304647)
                /\ 4294967295 = 36 * j + 3.
Proof.
  apply (alphanum_index_classes 3 4294967295).
  - lia.
  - vm_compute. split; [discriminate | reflexivity].
Defined.

(** ** save_buffer and the storage directory *)

Lemma slash_not_in_class : digit_or_lower "/" = false.
Proof. reflexivity. Qed.

Lemma path_append_relative (dir name : string) :
  match name with
  | String c _ => c <> "/"%char
  | EmptyString => True
  end ->
  path_append dir name = dir +:+ separator dir +:+ name.
Proof.
  intros Hrel. unfold separator.
  assert (Hbody : (if (String.length dir =? 0)%nat then name
                   else if ends_with_slash dir then dir +:+ name
                        else dir +:+ "/" +:+ name)
                  = dir +:+ (if (String.length dir =? 0)%nat || ends_with_slash dir
                             then "" else "/") +:+ name).
  { destruct dir as [| d dir]; [reflexivity |].
    cbn [String.length Nat.eqb orb]. destruct (ends_with_slash _); reflexivity. }
  destruct name as [| c name]; [exact Hbody |].
  unfold path_append.
  destruct c as [[] [] [] [] [] [] [] []]; try exact Hbody.
  exfalso. apply Hrel. reflexivity.
Qed.

Lemma list_ascii_of_string_app (s1 s2 : string) :
  list_ascii_of_string (s1 +:+ s2)
  = list_ascii_of_string s1 ++ list_ascii_of_string s2.
Proof.
  induction s1 as [| c s1 IH]; simpl; [reflexivity | f_equal; exact IH].
Qed.

Lemma c_str_id (s : string) :
  Forall (fun c => c <> NUL) (list_ascii_of_string s) -> c_str s = s.
Proof.
  intros H. unfold c_str. rewrite until_nul_id by exact H.
  apply string_of_list_ascii_of_string.
Qed.

Lemma class_no_nul (l : list ascii) :
  Forall (fun c => digit_or_lower c = true) l -> Forall (fun c => c <> NUL) l.
Proof.
  intros H. eapply Forall_impl; [exact H | apply digit_or_lower_not_nul].
Qed.

(** The path of a paste, for a directory name without NUL and a slug over
    [0-9a-z]: the directory, a separator unless it is empty or ends with one,
    and the slug. *)
Lemma paste_path_inside (settings : purrito_settings) (slug : string) :
  Forall (fun c => c <> NUL) (list_ascii_of_string (storage_directory settings)) ->
  Forall (fun c => digit_or_lower c = true) (list_ascii_of_string slug) ->
  paste_path settings slug
  = storage_directory settings +:+ separator (storage_directory settings) +:+ slug.
Proof.
  intros Hdir Hslug. unfold paste_path.
  rewrite path_append_relative.
  - apply c_str_id. rewrite !list_ascii_of_string_app.
    repeat apply Forall_app_2; [exact Hdir | | apply class_no_nul, Hslug].
    unfold separator. destruct (_ || _); repeat constructor. discriminate.
  - destruct slug as [| c slug]; [exact I |].
    cbn [list_ascii_of_string] in Hslug. inversion Hslug as [| ? ? Hc _]; subst.
    intros ->. discriminate Hc.
Qed.

Lemma random_slug_some_range (n : Z) (g g' : mt19937) (slug : string) :
  random_slug n g = Some (slug, g') -> 0 <= n < INT_MAX.
Proof.
  intros H. destruct (Z_lt_ge_dec n 0) as [Hneg | Hpos].
  - rewrite random_slug_none in H by lia. discriminate.
  - destruct (Z_lt_ge_dec n INT_MAX) as [Hlt | Hge]; [lia |].
    rewrite random_slug_none in H by lia. discriminate.
Qed.

(** X5: a call of [save_buffer] that returns has touched exactly one file,
    which lies directly in the storage directory under a name of
    [slug_size] characters of [0-9a-z]; every other file is as it was, and
    the engine is [slug_size] words further. *)
Theorem save_buffer_confined (settings : purrito_settings) (env : libc)
    (w w' : world) (buffer : region) (paste_url : string) :
  save_buffer buffer settings env w = Some (paste_url, w') ->
  Forall (fun c => c <> NUL) (list_ascii_of_string (storage_directory settings)) ->
  exists slug,
    paste_url = domain settings +:+ slug +:+ newline
    /\ Z.of_nat (String.length slug) = slug_size settings
    /\ Forall (fun c => digit_or_lower c = true) (list_ascii_of_string slug)
    /\ dom (files w')
       = {[ storage_directory settings
              +:+ separator (storage_directory settings) +:+ slug ]}
           ∪ dom (files w)
    /\ (forall p,
          p <> storage_directory settings
                 +:+ separator (storage_directory settings) +:+ slug ->
          files w' !! p = files w !! p)
    /\ rng w' = advance (rng w) (Z.to_nat (slug_size settings)).
Proof.
  intros Hsave Hdir. unfold save_buffer in Hsave.
  destruct (random_slug (slug_size settings) (rng w)) as [[slug g'] |] eqn:Hslug;
    [| discriminate].
  pose proof (random_slug_some_range _ _ _ _ Hslug) as Hn.
  destruct (random_slug_ok _ (rng w) Hn) as (slug0 & g0 & Hslug0 & Hlen & Hclass & _).
  rewrite Hslug in Hslug0. injection Hslug0 as <- <-.
  pose proof Hslug as Hval. rewrite random_slug_value in Hval by exact Hn.
  injection Hval as _ Hg.
  fold (paste_path settings slug) in Hsave.
  rewrite (paste_path_inside settings slug Hdir Hclass) in Hsave.
  destruct (opened _); [| discriminate].
  destruct (cstr_read buffer) as [text |]; [| discriminate].
  injection Hsave as <- <-. exists slug. cbn [files rng].
  split; [reflexivity |]. split; [exact Hlen |]. split; [exact Hclass |].
  split; [apply dom_insert_L |].
  split; [| symmetry; exact Hg].
  intros p Hp. apply lookup_insert_ne. congruence.
Qed.

Lemma save_buffer_confined_witness :
  exists slug,
    "http://p.example/07els" +:+ newline
      = domain (demo_settings 10) +:+ slug +:+ newline
    /\ Z.of_nat (String.length slug) = slug_size (demo_settings 10)
    /\ Forall (fun c => digit_or_lower c = true) (list_ascii_of_string slug)
    /\ dom (files {| rng := advance demo_engine 5;
                     files := {[ "/var/pastes/07els"%string := "abc"%string ]};
                     log := [] |})
       = {[ storage_directory (demo_settings 10)
              +:+ separator (storage_directory (demo_settings 10)) +:+ slug ]}
           ∪ dom (files demo_world)
    /\ (forall p,
          p <> storage_directory (demo_settings 10)
                 +:+ separator (storage_directory (demo_settings 10)) +:+ slug ->
          files {| rng := advance demo_engine 5;
                   files := {[ "/var/pastes/07els"%string := "abc"%string ]};
                   log := [] |} !! p
          = files demo_world !! p)
    /\ rng {| rng := advance demo_engine 5;
              files := {[ "/var/pastes/07els"%string := "abc"%string ]};
              log := [] |}
       = advance (rng demo_world) (Z.to_nat (slug_size (demo_settings 10))).
Proof.
  apply (save_buffer_confined (demo_settings 10) good_libc demo_world _
           (map Some (list_ascii_of_string "abc") ++ [Some NUL])).
  - vm_compute. reflexivity.
  - vm_compute. repeat constructor; discriminate.
Defined.

(** X6: when two successive calls of [save_buffer] draw the same slug, both
    return the same URL and the file keeps only the text of the second call:
    nothing tells the two pastes apart. *)
Theorem slug_collision_overwrites (settings : purrito_settings) (env : libc)
    (w : world) (buffer1 buffer2 : region) (text1 text2 : list ascii)
    (slug : string) (g1 g2 : mt19937) :
  random_slug (slug_size settings) (rng w) = Some (slug, g1) ->
  random_slug (slug_size settings) g1 = Some (slug, g2) ->
  cstr_read buffer1 = Some text1 ->
  cstr_read buffer2 = Some text2 ->
  opened (fopen_w env (paste_path settings slug)) = true ->
  (length text2 <= written (fopen_w env (paste_path settings slug)))%nat ->
  exists w1 w2,
    save_buffer buffer1 settings env w
      = Some (domain settings +:+ slug +:+ newline, w1)
    /\ save_buffer buffer2 settings env w1
       = Some (domain settings +:+ slug +:+ newline, w2)
    /\ files w2 !! paste_path settings slug = Some (string_of_list_ascii text2)
    /\ dom (files w2) = {[ paste_path settings slug ]} ∪ dom (files w).
Proof.
  intros Hs1 Hs2 Ht1 Ht2 Hopen Hfull.
  assert (Hsave : forall b t v g',
            cstr_read b = Some t ->
            random_slug (slug_size settings) (rng v) = Some (slug, g') ->
            save_buffer b settings env v
            = Some (domain settings +:+ slug +:+ newline,
                    {| rng := g';
                       files := <[paste_path settings slug :=
                                    string_of_list_ascii
                                      (take (written (fopen_w env (paste_path settings slug))) t)]>
                                  (files v);
                       log := if status (fopen_w env (paste_path settings slug)) <? 0
                              then log v ++ [WarnWrite (status (fopen_w env (paste_path settings slug)))]
                              else log v |})).
  { intros b t v g' Ht Hs. unfold save_buffer. rewrite Hs.
    fold (paste_path settings slug). rewrite Hopen, Ht. reflexivity. }
  eexists. eexists.
  split; [apply (Hsave buffer1 text1 w g1 Ht1 Hs1) |].
  split; [apply (Hsave buffer2 text2 _ g2 Ht2); exact Hs2 |].
  cbn [files]. split.
  - rewrite lookup_insert_eq, take_ge by exact Hfull. reflexivity.
  - rewrite !dom_insert_L, (assoc_L (∪)), (idemp_L (∪)). reflexivity.
Qed.

Lemma slug_collision_overwrites_witness :
  exists w1 w2,
    save_buffer (map Some (list_ascii_of_string "first") ++ [Some NUL])
      (demo_settings 10) good_libc
      {| rng := stuck_engine; files := ∅; log := [] |}
      = Some (domain (demo_settings 10) +:+ "aaaaa" +:+ newline, w1)
    /\ save_buffer (map Some (list_ascii_of_string "second") ++ [Some NUL])
         (demo_settings 10) good_libc w1
       = Some (domain (demo_settings 10) +:+ "aaaaa" +:+ newline, w2)
    /\ files w2 !! paste_path (demo_settings 10) "aaaaa"
       = Some (string_of_list_ascii (list_ascii_of_string "second"))
    /\ dom (files w2) = {[ paste_path (demo_settings 10) "aaaaa" ]} ∪ dom (∅ : gmap string string).
Proof.
  refine (slug_collision_overwrites (demo_settings 10) good_libc
            {| rng := stuck_engine; files := ∅; log := [] |}
            _ _ (list_ascii_of_string "first") (list_ascii_of_string "second")
            "aaaaa"
            {| outputs := outputs stuck_engine; drawn := 5 |}
            {| outputs := outputs stuck_engine; drawn := 10 |}
            _ _ _ _ _ _).
  - vm_compute. reflexivity.
  - vm_compute. reflexivity.
  - vm_compute. reflexivity.
  - vm_compute. reflexivity.
  - reflexivity.
  - vm_compute. lia.
Defined.

(** X7: once the output file is opened, an error of [fprintf] never stops
    [save_buffer]: it returns the URL of the slug, the file holds the
    characters that did reach it (a prefix of the text), and a negative
    status adds one warning to the log while any other status adds none. *)
Theorem save_buffer_write_outcomes (settings : purrito_settings) (env : libc)
    (w : world) (buffer : region) (text : list ascii) :
  0 <= slug_size settings < INT_MAX ->
  cstr_read buffer = Some text ->
  (forall path, opened (fopen_w env path) = true) ->
  exists slug w',
    save_buffer buffer settings env w
      = Some (domain settings +:+ slug +:+ newline, w')
    /\ files w' !! paste_path settings slug
       = Some (string_of_list_ascii
                 (take (written (fopen_w env (paste_path settings slug))) text))
    /\ log w'
       = log w ++ (if status (fopen_w env (paste_path settings slug)) <? 0
                   then [WarnWrite (status (fopen_w env (paste_path settings slug)))]
                   else []).
Proof.
  intros Hn Htext Hopen.
  destruct (save_buffer_ok settings env w buffer text Hn Htext)
    as (slug & g' & _ & _ & _ & Hsave).
  cbv zeta in Hsave. rewrite Hopen in Hsave.
  exists slug. eexists. split; [exact Hsave |]. cbn [files log].
  split; [apply lookup_insert_eq |].
  destruct (_ <? 0); [reflexivity | rewrite app_nil_r; reflexivity].
Qed.

Lemma save_buffer_write_outcomes_witness :
  exists slug w',
    save_buffer (map Some (list_ascii_of_string "abc") ++ [Some NUL])
      (demo_settings 10) failing_libc demo_world
      = Some (domain (demo_settings 10) +:+ slug +:+ newline, w')
    /\ files w' !! paste_path (demo_settings 10) slug
       = Some (string_of_list_ascii
                 (take (written (fopen_w failing_libc
                                   (paste_path (demo_settings 10) slug)))
                    (list_ascii_of_string "abc")))
    /\ log w'
       = log demo_world
           ++ (if status (fopen_w failing_libc
                            (paste_path (demo_settings 10) slug)) <? 0
               then [WarnWrite (status (fopen_w failing_libc
                                          (paste_path (demo_settings 10) slug)))]
               else []).
Proof.
  apply (save_buffer_write_outcomes (demo_settings 10) failing_libc demo_world
           (map Some (list_ascii_of_string "abc") ++ [Some NUL])
           (list_ascii_of_string "abc")).
  - vm_compute. split; [discriminate | reflexivity].
  - vm_compute. reflexivity.
  - intros path. reflexivity.
Defined.

(** ** Defined behaviour of a whole request *)

(** X8: with an allocated buffer, a capacity below 2^32 - 1, a slug size in
    range and files that open, a request has a defined result for every
    sequence of fragments and aborts: no copy and no terminator leaves the
    buffer, and [fprintf] never reads an indeterminate or unterminated
    buffer. *)
Theorem request_is_defined (settings : purrito_settings) (env : libc)
    (evs : list event) (w : world) :
  max_chars settings < 2 ^ 32 - 1 ->
  malloc_null env (wrap32 (max_chars settings + 1)) = false ->
  0 <= slug_size settings < INT_MAX ->
  (forall path, opened (fopen_w env path) = true) ->
  exists res w', request settings env evs w = Some (res, w').
Proof.
  intros Hcap Hm Hn Hopen. unfold request. rewrite purr_post_eq, Hm.
  pose proof (max_chars_range settings) as Hmc.
  eapply run_defined; [exact Hn | exact Hopen | reflexivity |].
  eexists. cbn [buffer read_count]. split; [reflexivity |].
  rewrite repeat_length, wrap32_small by (pow2; lia).
  split; [lia |]. split; [lia |].
  intros i Hi. change (Z.to_nat 0) with 0%nat in Hi. lia.
Qed.

Lemma request_is_defined_witness :
  exists res w',
    request (demo_settings 10) good_libc
      [Data "hello" false; Data " world!!!" true; Data "again" true; Aborted]
      demo_world
    = Some (res, w').
Proof.
  apply (request_is_defined (demo_settings 10) good_libc).
  - vm_compute. reflexivity.
  - reflexivity.
  - vm_compute. split; [discriminate | reflexivity].
  - intros path. reflexivity.
Defined.

(** ** Edges of the capacity *)

Lemma copy_size_top (chunk : string) : copy_size (2 ^ 32 - 1) 0 chunk = 0.
Proof.
  unfold copy_size. rewrite Z.sub_0_r.
  rewrite (wrap32_small (2 ^ 32 - 1)) by (pow2; lia).
  rewrite (to_int_high (2 ^ 32 - 1)) by (pow2; lia).
  pose proof (to_int_range (Z.of_nat (String.length chunk))) as Hs.
  replace (Z.max 0 _) with 0 by (pow2; lia).
  reflexivity.
Qed.

(** X9: when [max_chars] is 2^32 - 1 the size [max_chars + 1] given to
    [malloc] wraps to 0. The fragments that are not final are accepted and
    copy nothing: the buffer stays empty, the counter 0, nothing is written,
    sent or logged. The copy of the first final fragment is empty too, and
    that fragment then writes its terminator outside the empty buffer:
    the request has no result, whatever the fragments are. *)
Theorem full_range_capacity_overruns (settings : purrito_settings)
    (env : libc) (pre : list string) (final : string) (rest : list event)
    (w : world) :
  max_chars settings = 2 ^ 32 - 1 ->
  malloc_null env 0 = false ->
  request settings env (map not_last pre) w
    = Some ({| data_handler := Some {| buffer := Some []; read_count := 0 |};
               abort_handler := true;
               sent := [] |}, w)
  /\ (forall chunk, copy_size (max_chars settings) 0 chunk = 0)
  /\ string_view_copy final (Some []) 0 (copy_size (max_chars settings) 0 final)
     = Some (Some [])
  /\ poke [] (wrap32 (copy_size (max_chars settings) 0 final + 0)) NUL = None
  /\ request settings env (map not_last pre ++ Data final true :: rest) w = None.
Proof.
  intros Htop Hm.
  assert (Hcopy : forall chunk, copy_size (max_chars settings) 0 chunk = 0)
    by (intros chunk; rewrite Htop; apply copy_size_top).
  assert (Hview : string_view_copy final (Some []) 0
                    (copy_size (max_chars settings) 0 final) = Some (Some [])).
  { rewrite Hcopy. unfold string_view_copy. rewrite Z.min_l by lia.
    change (Z.to_nat 0) with 0%nat. rewrite take_0. reflexivity. }
  assert (Hpre : request settings env (map not_last pre) w
                 = Some ({| data_handler := Some {| buffer := Some [];
                                                    read_count := 0 |};
                            abort_handler := true;
                            sent := [] |}, w)).
  { unfold request. rewrite purr_post_eq, Htop.
    change (wrap32 (2 ^ 32 - 1 + 1)) with 0. rewrite Hm.
    change (repeat None (Z.to_nat 0)) with (@nil (option ascii)).
    change (sent fresh_connection) with (@nil string).
    set (res0 := {| data_handler := _; abort_handler := true; sent := [] |}).
    assert (Hbuf0 : buffer_ok settings {| buffer := Some []; read_count := 0 |}).
    { exists []. cbn [buffer read_count]. rewrite Htop.
      repeat split; reflexivity. }
    destruct (run_not_last_keeps_counter settings env pre res0 w _
                eq_refl eq_refl Hbuf0)
      as (res1 & u1 & Hrun & Hu1 & Hrc1 & (r & Hr & Hrlen & _) & Hsent).
    pose proof (run_not_last_abort_handler _ _ _ _ _ _ _ Hrun) as Habort.
    rewrite Hrun. f_equal. f_equal.
    rewrite Htop in Hrlen. change (wrap32 (2 ^ 32 - 1 + 1)) with 0 in Hrlen.
    destruct r as [| x r]; [| cbn [length] in Hrlen; lia].
    destruct res1 as [h a b]. destruct u1 as [bf rc].
    cbn [data_handler abort_handler sent buffer read_count] in *.
    subst. reflexivity. }
  split; [exact Hpre |]. split; [exact Hcopy |]. split; [exact Hview |].
  split; [rewrite Hcopy; reflexivity |].
  unfold request in *.
  destruct (purr_post settings env fresh_connection w) as [res0 w0].
  rewrite (run_app_not_last _ _ _ _ _ _ _ _ Hpre).
  cbn [run deliver data_handler]. unfold on_data. cbn [buffer read_count].
  rewrite Hview, Hcopy. reflexivity.
Qed.

Lemma full_range_capacity_overruns_witness :
  request (demo_settings 4294967295) good_libc (map not_last ["a"; "b"])
    demo_world
    = Some ({| data_handler := Some {| buffer := Some []; read_count := 0 |};
               abort_handler := true;
               sent := [] |}, demo_world)
  /\ (forall chunk,
        copy_size (max_chars (demo_settings 4294967295)) 0 chunk = 0)
  /\ string_view_copy "c" (Some []) 0
       (copy_size (max_chars (demo_settings 4294967295)) 0 "c")
     = Some (Some [])
  /\ poke [] (wrap32 (copy_size (max_chars (demo_settings 4294967295)) 0 "c"
                       + 0)) NUL = None
  /\ request (demo_settings 4294967295) good_libc
       (map not_last ["a"; "b"] ++ Data "c" true :: [Aborted]) demo_world
     = None.
Proof.
  apply (full_range_capacity_overruns (demo_settings 4294967295) good_libc).
  - vm_compute. reflexivity.
  - reflexivity.
Defined.

Lemma take_min_length {A : Type} (l : list A) (k : nat) :
  take (Nat.min k (length l)) l = take k l.
Proof.
  destruct (Nat.le_ge_cases k (length l)) as [Hle | Hge].
  - rewrite Nat.min_l by exact Hle. reflexivity.
  - rewrite Nat.min_r by exact Hge. rewrite !take_ge by lia. reflexivity.
Qed.

(** X10: a paste that arrives as one final fragment without NUL, with a
    capacity below 2^31, is stored as its first [max_chars] characters, hence
    exactly when it fits; the response is the domain, the slug and a newline
    when the domain has no NUL. *)
Theorem single_fragment_is_stored (settings : purrito_settings) (env : libc)
    (w : world) (chunk : string) (slug : string) (g' : mt19937) :
  malloc_null env (wrap32 (max_chars settings + 1)) = false ->
  max_chars settings < 2 ^ 31 ->
  Z.of_nat (String.length chunk) < 2 ^ 31 ->
  Forall (fun c => c <> NUL) (list_ascii_of_string chunk) ->
  Forall (fun c => c <> NUL) (list_ascii_of_string (domain settings)) ->
  random_slug (slug_size settings) (rng w) = Some (slug, g') ->
  opened (fopen_w env (paste_path settings slug)) = true ->
  (String.length chunk <= written (fopen_w env (paste_path settings slug)))%nat ->
  exists res w',
    request settings env [Data chunk true] w = Some (res, w')
    /\ files w' !! paste_path settings slug
       = Some (string_of_list_ascii
                 (take (Z.to_nat (max_chars settings))
                    (list_ascii_of_string chunk)))
    /\ (Z.of_nat (String.length chunk) <= max_chars settings ->
        files w' !! paste_path settings slug = Some chunk)
    /\ sent res = [domain settings +:+ slug +:+ newline].
Proof.
  intros Hm Hcap Hlen Hnonul Hdom Hslug Hopen Hfull.
  destruct (request_stores_last_fragment settings env w [] chunk slug g'
              Hm Hcap Hlen Hslug Hopen Hfull)
    as (res & w' & Hreq & Hfile & Hsent).
  cbn [map app] in Hreq. cbv zeta in Hfile.
  pose proof (max_chars_range settings) as Hmc.
  assert (Hkept : take (Z.to_nat (Z.min (max_chars settings)
                                    (Z.of_nat (String.length chunk))))
                    (list_ascii_of_string chunk)
                  = take (Z.to_nat (max_chars settings))
                      (list_ascii_of_string chunk)).
  { rewrite <- (take_min_length _ (Z.to_nat (max_chars settings))).
    rewrite length_list_ascii_of_string. f_equal. lia. }
  rewrite Hkept in Hfile.
  rewrite until_nul_id in Hfile by (apply Forall_take, Hnonul).
  exists res, w'. split; [exact Hreq |]. split; [exact Hfile |]. split.
  - intros Hfit. rewrite Hfile.
    rewrite take_ge by (rewrite length_list_ascii_of_string; lia).
    rewrite string_of_list_ascii_of_string. reflexivity.
  - rewrite Hsent. f_equal. apply c_str_id.
    pose proof (random_slug_some_range _ _ _ _ Hslug) as Hn.
    destruct (random_slug_ok _ (rng w) Hn) as (s0 & g0 & Hs0 & _ & Hclass & _).
    rewrite Hslug in Hs0. injection Hs0 as <- <-.
    rewrite !list_ascii_of_string_app.
    repeat apply Forall_app_2;
      [exact Hdom | apply class_no_nul, Hclass |].
    repeat constructor. discriminate.
Qed.

Lemma single_fragment_is_stored_witness :
  exists res w',
    request (demo_settings 3) good_libc [Data "hello" true] demo_world
      = Some (res, w')
    /\ files w' !! paste_path (demo_settings 3) "07els"
       = Some (string_of_list_ascii
                 (take (Z.to_nat (max_chars (demo_settings 3)))
                    (list_ascii_of_string "hello")))
    /\ (Z.of_nat (String.length "hello") <= max_chars (demo_settings 3) ->
        files w' !! paste_path (demo_settings 3) "07els" = Some "hello"%string)
    /\ sent res = [domain (demo_settings 3) +:+ "07els" +:+ newline].
Proof.
  refine (single_fragment_is_stored (demo_settings 3) good_libc demo_world
            "hello" "07els" {| outputs := outputs demo_engine; drawn := 5 |}
            _ _ _ _ _ _ _ _).
  - reflexivity.
  - vm_compute. reflexivity.
  - vm_compute. reflexivity.
  - vm_compute. repeat constructor; discriminate.
  - vm_compute. repeat constructor; discriminate.
  - vm_compute. reflexivity.
  - reflexivity.
  - vm_compute. lia.
Defined.

(** ** Aborts and responses *)

(** X11: an abort that arrives before any final fragment prints its one
    line and nothing else: no file, no response, no word drawn, whatever
    fragments came before and whatever the transport would send after. *)
Theorem abort_only_logs (settings : purrito_settings) (env : libc)
    (pre : list string) (rest : list event) (w : world) :
  malloc_null env (wrap32 (max_chars settings + 1)) = false ->
  exists res,
    request settings env (map not_last pre ++ Aborted :: rest) w
      = Some (res, {| rng := rng w; files := files w;
                      log := log w ++ [PrintAborted] |})
    /\ sent res = [].
Proof.
  intros Hm. unfold request.
  pose proof (purr_post_session_ok settings env w Hm) as (u0 & Hu0 & _ & Hbuf0).
  pose proof (purr_post_eq settings env fresh_connection w) as Hpost.
  destruct (purr_post settings env fresh_connection w) as [res0 w0].
  injection Hpost as Hres0 ->. cbn [fst] in Hu0.
  assert (Hrc0 : read_count u0 = 0).
  { rewrite Hres0 in Hu0. cbn [data_handler] in Hu0. injection Hu0 as <-.
    reflexivity. }
  destruct (run_not_last_keeps_counter settings env pre res0 w u0 Hu0 Hrc0 Hbuf0)
    as (res1 & u1 & Hrun & _ & _ & _ & Hsent).
  rewrite (run_app_not_last _ _ _ _ _ _ _ _ Hrun). cbn [run deliver].
  rewrite (run_not_last_abort_handler _ _ _ _ _ _ _ Hrun).
  subst res0. cbn [abort_handler sent] in *.
  exists res1. split; [reflexivity | exact Hsent].
Qed.

Lemma abort_only_logs_witness :
  exists res,
    request (demo_settings 10) good_libc
      (map not_last ["hello"] ++ Aborted :: [Data " world!!!" true]) demo_world
      = Some (res, {| rng := rng demo_world; files := files demo_world;
                      log := log demo_world ++ [PrintAborted] |})
    /\ sent res = [].
Proof.
  apply (abort_only_logs (demo_settings 10) good_libc). reflexivity.
Defined.

Lemma save_buffer_rng settings env w buffer paste_url w' :
  save_buffer buffer settings env w = Some (paste_url, w') ->
  rng w' = advance (rng w) (Z.to_nat (slug_size settings)).
Proof.
  unfold save_buffer.
  destruct (random_slug (slug_size settings) (rng w)) as [[slug g'] |] eqn:Hslug;
    [| discriminate].
  pose proof (random_slug_some_range _ _ _ _ Hslug) as Hn.
  rewrite random_slug_value in Hslug by exact Hn. injection Hslug as _ <-.
  destruct (opened _); [| discriminate].
  destruct (cstr_read buffer); [| discriminate].
  intros [= _ <-]. reflexivity.
Qed.

Lemma run_counts settings env (evs : list event) :
  forall res w res' w',
    run settings env evs res w = Some (res', w') ->
    is_Some (data_handler res) ->
    length (sent res') = (length (sent res) + finals evs)%nat
    /\ outputs (rng w') = outputs (rng w)
    /\ drawn (rng w')
       = (drawn (rng w) + finals evs * Z.to_nat (slug_size settings))%nat.
Proof.
  unfold finals.
  induction evs as [| ev evs IH]; intros res w res' w' Hrun Hhandler.
  - cbn in Hrun. injection Hrun as <- <-. cbn. repeat split; lia.
  - destruct ev as [chunk is_last |].
    + cbn [run deliver] in Hrun. destruct Hhandler as (u & Hu).
      rewrite Hu in Hrun.
      destruct (on_data settings env u w chunk is_last)
        as [[[u' w1] bodies] |] eqn:Hd; [| discriminate].
      apply IH in Hrun as (Hsent & Hout & Hdrawn); [| cbn; eauto].
      cbn [sent] in Hsent. rewrite length_app in Hsent.
      cbn [before_abort List.filter is_final]. destruct is_last.
      * apply on_data_last in Hd as (r & url & _ & _ & _ & Hsave & ->).
        apply save_buffer_rng in Hsave. rewrite Hsave in Hout, Hdrawn.
        cbn [advance outputs drawn length] in *.
        repeat split; [lia | exact Hout | lia].
      * apply on_data_not_last in Hd as (-> & -> & _).
        cbn [length] in *. repeat split; [lia | exact Hout | lia].
    + cbn [run deliver before_abort List.filter length] in *.
      destruct (abort_handler res); injection Hrun as <- <-;
        cbn [rng]; repeat split; lia.
Qed.

(** X12: in every request that runs to its end, the responses sent are as
    many as the final fragments delivered before the first abort, and the
    engine has advanced by [slug_size] words for each of them and for
    nothing else. *)
Theorem one_response_per_final (settings : purrito_settings) (env : libc)
    (evs : list event) (w : world) (res : connection) (w' : world) :
  request settings env evs w = Some (res, w') ->
  length (sent res) = finals evs
  /\ outputs (rng w') = outputs (rng w)
  /\ drawn (rng w')
     = (drawn (rng w) + finals evs * Z.to_nat (slug_size settings))%nat.
Proof.
  unfold request. rewrite purr_post_eq. intros Hrun.
  apply run_counts in Hrun; [| cbn; eauto]. exact Hrun.
Qed.

Lemma one_response_per_final_witness :
  length (sent (fst (default (fresh_connection, demo_world)
                       (request (demo_settings 10) good_libc
                          [Data "a" false; Data "b" true; Data "c" true;
                           Aborted; Data "d" true] demo_world))))
  = finals [Data "a" false; Data "b" true; Data "c" true;
            Aborted; Data "d" true].
Proof.
  refine (proj1 (one_response_per_final (demo_settings 10) good_libc
                   [Data "a" false; Data "b" true; Data "c" true;
                    Aborted; Data "d" true] demo_world _
                   (snd (default (fresh_connection, demo_world)
                           (request (demo_settings 10) good_libc
                              [Data "a" false; Data "b" true; Data "c" true;
                               Aborted; Data "d" true] demo_world))) _)).
  vm_compute. reflexivity.
Defined.

(** ** What reaches the storage directory *)

(** X13: whatever fragments a request receives (allocated buffer, capacity
    below 2^32 - 1), every file is after the request exactly as it was
    before it, present or absent, except the files the request wrote, and
    each of those holds at most [max_paste_size] characters and no NUL; and
    with a slug size in range and files that open the request does run to
    its end. *)
Theorem stored_paste_within_capacity (settings : purrito_settings)
    (env : libc) (evs : list event) (w : world) :
  max_chars settings < 2 ^ 32 - 1 ->
  malloc_null env (wrap32 (max_chars settings + 1)) = false ->
  (forall res w',
     request settings env evs w = Some (res, w') ->
     forall path,
       files w' !! path = files w !! path
       \/ exists content,
            files w' !! path = Some content
            /\ Z.of_nat (String.length content)
               <= Z.of_N (max_paste_size settings)
            /\ Forall (fun c => c <> NUL) (list_ascii_of_string content))
  /\ (0 <= slug_size settings < INT_MAX ->
      (forall path, opened (fopen_w env path) = true) ->
      exists res w', request settings env evs w = Some (res, w')).
Proof.
  intros Hcap Hm.
  pose proof (max_chars_range settings) as Hmc.
  pose proof (max_chars_le settings) as Hle.
  assert (Hinv0 : session_inv settings
                    {| buffer := Some (repeat None
                                   (Z.to_nat (wrap32 (max_chars settings + 1))));
                       read_count := 0 |}).
  { eexists. cbn [buffer read_count]. split; [reflexivity |].
    rewrite repeat_length, wrap32_small by (pow2; lia).
    split; [lia |]. split; [lia |].
    intros i Hi. change (Z.to_nat 0) with 0%nat in Hi. lia. }
  unfold request. rewrite purr_post_eq, Hm. split.
  - intros res w' Hreq path.
    destruct (fun Hh => run_writes_bounded settings env evs _ _ _ _ _ Hh
                          Hinv0 Hreq path)
      as [Hsame | (content & Hfile & Hlen & Hclean)];
      [reflexivity | left; exact Hsame |].
    right. exists content. split; [exact Hfile |]. split; [lia | exact Hclean].
  - intros Hn Hopen.
    eapply run_defined; [exact Hn | exact Hopen | reflexivity | exact Hinv0].
Qed.

Lemma stored_paste_within_capacity_witness :
  exists res w',
    request (demo_settings 3) good_libc
      [Data "hello" false; Data "worlds" true] demo_world = Some (res, w')
    /\ forall path,
         files w' !! path = files demo_world !! path
         \/ exists content,
              files w' !! path = Some content
              /\ Z.of_nat (String.length content)
                 <= Z.of_N (max_paste_size (demo_settings 3))
              /\ Forall (fun c => c <> NUL) (list_ascii_of_string content).
Proof.
  destruct (stored_paste_within_capacity (demo_settings 3) good_libc
              [Data "hello" false; Data "worlds" true] demo_world)
    as [Hsafe Hrun].
  - vm_compute. reflexivity.
  - reflexivity.
  - destruct Hrun as (res & w' & Hreq).
    + vm_compute. split; [discriminate | reflexivity].
    + intros path. reflexivity.
    + exists res, w'. split; [exact Hreq | exact (Hsafe res w' Hreq)].
Defined.
